(** * News aggregation pipeline: RSS and Reddit fetchers, per-source caches,
      link de-duplication, date ordering and the content-addressed item id.

    Shallow embedding of [src/lib/news-types.ts], [src/lib/rss.ts],
    [src/lib/reddit.ts] and [src/app/api/news/route.ts].

    Conventions of the embedding:
    - a JavaScript string is the list of its UTF-16 code units ([JS.string]);
      [length], [slice] and the regular expressions of the source all work on
      code units;
    - a timestamp is the ECMAScript time value it denotes (milliseconds since
      the epoch, a [Z]); the ISO-8601 text that [toISOString] prints and that
      [new Date(...)] reads back is a rendering of that number;
    - promises are computations in a monad with state (the two module-level
      cache slots and a log of the network requests issued), exceptions
      (a rejected promise) and fuel (a promise that never settles). *)

From Stdlib Require Import ZArith List Ascii String DecimalString Lia Sorted Permutation.
From stdpp Require Import base decidable countable gmap list finite.

Set Warnings "-clear-no-such-hyp,-register-all".

Import ListNotations.
Local Open Scope Z_scope.

(** ** JavaScript strings *)

Module JS.

(** UTF-16 code units. *)
Definition string := list Z.

(** The code units of an ASCII literal of the source. *)
Definition lit (s : String.string) : string :=
  List.map (fun a => Z.of_N (N_of_ascii a)) (list_ascii_of_string s).

(** An integer as a template literal prints it. *)
Definition of_number (n : Z) : string :=
  lit (DecimalString.NilZero.string_of_int (Z.to_int n)).

(** [s.length] *)
Definition length (s : string) : nat := List.length s.

(** [s.slice(0, n)] *)
Definition slice0 (n : nat) (s : string) : string := firstn n s.

(** Truthiness of a string: the empty string is falsy. *)
Definition truthy (s : string) : bool :=
  match s with [] => false | _ => true end.

(** [a || b] on strings. *)
Definition or_else (a b : string) : string := if truthy a then a else b.

(** WhiteSpace and LineTerminator code points, as [String.prototype.trim]
    strips them. *)
Definition is_space (c : Z) : bool :=
  (c =? 0x09) || (c =? 0x0A) || (c =? 0x0B) || (c =? 0x0C) || (c =? 0x0D)
  || (c =? 0x20) || (c =? 0xA0) || (c =? 0x1680)
  || ((0x2000 <=? c) && (c <=? 0x200A))
  || (c =? 0x2028) || (c =? 0x2029) || (c =? 0x202F) || (c =? 0x205F)
  || (c =? 0x3000) || (c =? 0xFEFF).

Fixpoint trim_start (s : string) : string :=
  match s with
  | c :: r => if is_space c then trim_start r else s
  | [] => []
  end.

Definition trim_end (s : string) : string := rev (trim_start (rev s)).

(** [s.trim()] *)
Definition trim (s : string) : string := trim_end (trim_start s).

(** [s.replace(/<[^>]*>/g, "")]: scanning from the left, a ['<'] that is
    followed somewhere by a ['>'] is deleted together with everything up to
    and including the first such ['>']; a ['<'] with no ['>'] after it stays. *)
Definition lt_sign : Z := 0x3C.
Definition gt_sign : Z := 0x3E.

(** The text after the first ['>'] of [s], if there is one. *)
Fixpoint after_gt (s : string) : option string :=
  match s with
  | [] => None
  | c :: r => if c =? gt_sign then Some r else after_gt r
  end.

Fixpoint strip_tags_fuel (n : nat) (s : string) : string :=
  match n with
  | O => s
  | S n' =>
      match s with
      | [] => []
      | c :: r =>
          if c =? lt_sign then
            match after_gt r with
            | Some r' => strip_tags_fuel n' r'
            | None => c :: strip_tags_fuel n' r
            end
          else c :: strip_tags_fuel n' r
      end
  end.

Definition strip_tags (s : string) : string :=
  strip_tags_fuel (S (List.length s)) s.

(** [s.replace(/\n{2,}/g, " ")]: every maximal run of two or more line feeds
    becomes one space; a single line feed stays. *)
Definition lf : Z := 0x0A.
Definition space : Z := 0x20.

Fixpoint drop_lf (s : string) : string :=
  match s with
  | c :: r => if c =? lf then drop_lf r else s
  | [] => []
  end.

Fixpoint collapse_blank_lines_fuel (n : nat) (s : string) : string :=
  match n with
  | O => s
  | S n' =>
      match s with
      | a :: ((b :: r) as t) =>
          if (a =? lf) && (b =? lf)
          then space :: collapse_blank_lines_fuel n' (drop_lf r)
          else a :: collapse_blank_lines_fuel n' t
      | _ => s
      end
  end.

Definition collapse_blank_lines (s : string) : string :=
  collapse_blank_lines_fuel (List.length s) s.

(** The one-character horizontal ellipsis U+2026 of the source. *)
Definition ellipsis : string := [0x2026].

(** [Buffer.from(s, "utf8")]: the UTF-8 encoding Node uses when a string is
    fed to a hash.  A surrogate pair is one code point; a lone surrogate is
    encoded as U+FFFD. *)
Definition is_high (c : Z) : bool := (0xD800 <=? c) && (c <=? 0xDBFF).
Definition is_low (c : Z) : bool := (0xDC00 <=? c) && (c <=? 0xDFFF).
Definition replacement : list Z := [0xEF; 0xBF; 0xBD].

Definition utf8_1 (c : Z) : list Z := [c].
Definition utf8_2 (c : Z) : list Z :=
  [Z.lor 0xC0 (Z.shiftr c 6); Z.lor 0x80 (Z.land c 0x3F)].
Definition utf8_3 (c : Z) : list Z :=
  [Z.lor 0xE0 (Z.shiftr c 12);
   Z.lor 0x80 (Z.land (Z.shiftr c 6) 0x3F);
   Z.lor 0x80 (Z.land c 0x3F)].
Definition utf8_4 (c : Z) : list Z :=
  [Z.lor 0xF0 (Z.shiftr c 18);
   Z.lor 0x80 (Z.land (Z.shiftr c 12) 0x3F);
   Z.lor 0x80 (Z.land (Z.shiftr c 6) 0x3F);
   Z.lor 0x80 (Z.land c 0x3F)].

Fixpoint utf8 (s : string) : list Z :=
  match s with
  | [] => []
  | c :: r =>
      if c <? 0x80 then utf8_1 c ++ utf8 r
      else if c <? 0x800 then utf8_2 c ++ utf8 r
      else if is_high c then
        match r with
        | d :: r' =>
            if is_low d
            then utf8_4 (0x10000 + Z.shiftl (c - 0xD800) 10 + (d - 0xDC00))
                   ++ utf8 r'
            else replacement ++ utf8 r
        | [] => replacement
        end
      else if is_low c then replacement ++ utf8 r
      else utf8_3 c ++ utf8 r
  end.

End JS.

(** ** SHA-256 (FIPS 180-4), as [crypto.createHash("sha256")] computes it *)

Module SHA256.

Definition w32 (x : Z) : Z := x mod 2 ^ 32.
Definition add32 (x y : Z) : Z := w32 (x + y).
Definition rotr (n x : Z) : Z :=
  Z.lor (Z.shiftr x n) (w32 (Z.shiftl x (32 - n))).
Definition shr (n x : Z) : Z := Z.shiftr x n.
Definition not32 (x : Z) : Z := Z.lxor x 0xffffffff.

Definition Ch (x y z : Z) : Z := Z.lxor (Z.land x y) (Z.land (not32 x) z).
Definition Maj (x y z : Z) : Z :=
  Z.lxor (Z.lxor (Z.land x y) (Z.land x z)) (Z.land y z).
Definition Sigma0 (x : Z) : Z := Z.lxor (Z.lxor (rotr 2 x) (rotr 13 x)) (rotr 22 x).
Definition Sigma1 (x : Z) : Z := Z.lxor (Z.lxor (rotr 6 x) (rotr 11 x)) (rotr 25 x).
Definition sigma0 (x : Z) : Z := Z.lxor (Z.lxor (rotr 7 x) (rotr 18 x)) (shr 3 x).
Definition sigma1 (x : Z) : Z := Z.lxor (Z.lxor (rotr 17 x) (rotr 19 x)) (shr 10 x).

(** The constants are defined as FIPS 180-4 defines them: the first 32 bits
    of the fractional parts of the cube roots (for [K]) and of the square
    roots (for [H0]) of the first primes. *)
Definition is_prime (n : Z) : bool :=
  (2 <=? n)
  && forallb (fun d => negb (n mod Z.of_nat d =? 0)) (seq 2 (Z.to_nat n - 2)).

Definition first_primes (n : nat) : list Z :=
  firstn n (List.filter is_prime (List.map Z.of_nat (seq 2 400))).

(** The largest [r] below [2 ^ bits] with [r ^ 3 <= n]. *)
Fixpoint cube_root (bits : nat) (n r : Z) : Z :=
  match bits with
  | O => r
  | S b =>
      let r' := r + 2 ^ Z.of_nat b in
      cube_root b n (if r' ^ 3 <=? n then r' else r)
  end.

Definition frac_cube_root (p : Z) : Z := w32 (cube_root 40 (p * 2 ^ 96) 0).
Definition frac_square_root (p : Z) : Z := w32 (Z.sqrt (p * 2 ^ 64)).

Definition K : list Z :=
  Eval vm_compute in List.map frac_cube_root (first_primes 64).

(** The eight working variables / the intermediate hash value. *)
Record hash := Hash { ha : Z; hb : Z; hc : Z; hd : Z; he : Z; hf : Z; hg : Z; hh : Z }.

Definition H0 : hash :=
  Eval vm_compute in
    match List.map frac_square_root (first_primes 8) with
    | [a; b; c; d; e; f; g; h] => Hash a b c d e f g h
    | _ => Hash 0 0 0 0 0 0 0 0
    end.

(** Padding: a 1 bit, zeros, and the bit length in 64 bits, big endian. *)
Definition be_bytes (n : nat) (x : Z) : list Z :=
  List.map (fun i => Z.land (Z.shiftr x (8 * Z.of_nat i)) 0xff) (rev (seq 0 n)).

Definition pad (msg : list Z) : list Z :=
  let len := Z.of_nat (List.length msg) in
  msg ++ [0x80] ++ repeat 0 (Z.to_nat ((55 - len) mod 64)) ++ be_bytes 8 (8 * len).

Definition be_word (b3 b2 b1 b0 : Z) : Z :=
  Z.lor (Z.lor (Z.shiftl b3 24) (Z.shiftl b2 16)) (Z.lor (Z.shiftl b1 8) b0).

Fixpoint words (bs : list Z) : list Z :=
  match bs with
  | b3 :: b2 :: b1 :: b0 :: r => be_word b3 b2 b1 b0 :: words r
  | _ => []
  end.

(** The message schedule: sixteen words of the block, then forty-eight
    derived ones. *)
Fixpoint schedule (n : nat) (w : list Z) : list Z :=
  match n with
  | O => w
  | S n' =>
      let t := List.length w in
      let at_ k := nth (t - k) w 0 in
      schedule n'
        (w ++ [add32 (add32 (sigma1 (at_ 2%nat)) (at_ 7%nat))
                     (add32 (sigma0 (at_ 15%nat)) (at_ 16%nat))])
  end.

Definition round (s : hash) (kw : Z * Z) : hash :=
  let t1 := add32 (add32 (add32 (hh s) (Sigma1 (he s)))
                         (add32 (Ch (he s) (hf s) (hg s)) (fst kw))) (snd kw) in
  let t2 := add32 (Sigma0 (ha s)) (Maj (ha s) (hb s) (hc s)) in
  Hash (add32 t1 t2) (ha s) (hb s) (hc s) (add32 (hd s) t1) (he s) (hf s) (hg s).

Definition compress (h : hash) (block : list Z) : hash :=
  let w := schedule 48 (words block) in
  let s := fold_left round (combine K w) h in
  Hash (add32 (ha h) (ha s)) (add32 (hb h) (hb s)) (add32 (hc h) (hc s))
       (add32 (hd h) (hd s)) (add32 (he h) (he s)) (add32 (hf h) (hf s))
       (add32 (hg h) (hg s)) (add32 (hh h) (hh s)).

Fixpoint blocks (n : nat) (bs : list Z) : list (list Z) :=
  match n with
  | O => []
  | S n' =>
      match bs with
      | [] => []
      | _ => firstn 64 bs :: blocks n' (skipn 64 bs)
      end
  end.

Definition digest_bytes (h : hash) : list Z :=
  be_bytes 4 (ha h) ++ be_bytes 4 (hb h) ++ be_bytes 4 (hc h) ++ be_bytes 4 (hd h)
  ++ be_bytes 4 (he h) ++ be_bytes 4 (hf h) ++ be_bytes 4 (hg h) ++ be_bytes 4 (hh h).

(** [createHash("sha256").update(msg).digest()] *)
Definition digest (msg : list Z) : list Z :=
  let p := pad msg in
  digest_bytes (fold_left compress (blocks (List.length p) p) H0).

(** [.digest("hex")]: two lower-case hexadecimal digits per byte. *)
Definition hex_digit (n : Z) : Z :=
  let d := n mod 16 in if d <? 10 then 0x30 + d else 0x61 + (d - 10).

Definition hex (bs : list Z) : JS.string :=
  flat_map (fun b => [hex_digit (Z.shiftr b 4); hex_digit b]) bs.

End SHA256.

(** ** The unified entity and its identifier ([news-types.ts]) *)

Record NewsItem := mkNewsItem {
  id : JS.string;
  title : JS.string;
  link : JS.string;
  source : JS.string;
  publishedAt : Z;     (* time value of the ISO-8601 text *)
  summary : JS.string
}.

(** [makeId]: the first sixteen hexadecimal digits of the SHA-256 of the
    link's UTF-8 bytes. *)
Definition makeId (link : JS.string) : JS.string :=
  JS.slice0 16 (SHA256.hex (SHA256.digest (JS.utf8 link))).


(** ** Exceptions, dates, and the shape of what the upstream sends *)

Inductive exn :=
| NetworkError                 (* request 'error' event, incl. the 10 s timeout *)
| HttpError (status : Z)       (* [new Error(`HTTP ${res.statusCode}`)] *)
| SyntaxError                  (* [JSON.parse] or the feed parser *)
| TypeError
| RangeError.                  (* "Invalid time value" *)

Inductive res (A : Type) :=
| Ok (a : A)
| Throw (e : exn).
Arguments Ok {A} a.
Arguments Throw {A} e.

Module Date.

(** A [Date] object: its time value, or [None] for an Invalid Date. *)
Definition t := option Z.

Definition max_time : Z := 8640000000000000.

(** [new Date(ms)] for a number: TimeClip. *)
Definition of_number (ms : Z) : t :=
  if (- max_time <=? ms) && (ms <=? max_time) then Some ms else None.

(** [d.toISOString()]: throws a RangeError on an Invalid Date. *)
Definition toISOString (d : t) : res Z :=
  match d with
  | Some ms => Ok ms
  | None => Throw RangeError
  end.

End Date.

(** One entry of a parsed feed ([Parser.Item]); every field is optional.
    [item_isoDate] is the date text by what [new Date(text)] reads from it:
    [Some None] is a non-empty text that is not a date. *)
Record RssItem := mkRssItem {
  item_link : option JS.string;
  item_title : option JS.string;
  item_contentSnippet : option JS.string;
  item_content : option JS.string;
  item_isoDate : option Date.t
}.

(** A parsed feed ([Parser.Output]).  [feed_hostname] is
    [new URL(feed.link ?? "").hostname]: [None] when the constructor throws
    (no link, or not an absolute URL). *)
Record Feed := mkFeed {
  feed_title : option JS.string;
  feed_hostname : option JS.string;
  feed_items : list RssItem
}.

(** [RedditPost["data"]] (the unused [domain] is left out).  [title] and [url]
    are read defensively by the source, so they may be absent.
    [created_utc] is a whole number of seconds, as Reddit reports it. *)
Record RedditPost := mkRedditPost {
  post_title : option JS.string;
  post_url : option JS.string;
  post_permalink : JS.string;
  post_selftext : JS.string;
  post_is_self : bool;
  post_stickied : bool;
  post_created_utc : Z;
  post_subreddit : JS.string
}.

(** What [JSON.parse(body)] gives: [listing.data.children] when it is there,
    [None] when reading it throws. *)
Definition RedditListing := option (list RedditPost).

(** What one [https.get] meets. *)
Inductive HttpsOutcome :=
| RequestError
| Response (statusCode : Z) (location : option JS.string) (body : res RedditListing).

(** Where the code reads the clock. *)
Inductive ClockSite :=
| RssCacheCheck
| RssItemFallback (url : JS.string)
| RssCacheStore
| RedditCacheCheck
| RedditCacheStore.

(** The outside world as one call observes it. *)
Record World := mkWorld {
  parseURL : JS.string -> res Feed;
  https_get : JS.string -> HttpsOutcome;
  Date_now : ClockSite -> Z
}.

(** ** The process state and the monad of promises *)

Record CacheEntry := mkCacheEntry {
  data : list NewsItem;
  expiresAt : Z
}.

Record State := mkState {
  rss_cache : option CacheEntry;       (* [cache] of rss.ts *)
  reddit_cache : option CacheEntry;    (* [cache] of reddit.ts *)
  requests : list JS.string            (* URLs requested so far, oldest first *)
}.

Definition initial_state : State := mkState None None [].

(** A promise: given fuel and a state, it settles ([Ok]: fulfilled, [Throw]:
    rejected) or the fuel runs out. *)
Definition M (A : Type) : Type := nat -> State -> option (res A * State).

Definition ret {A} (a : A) : M A := fun _ st => Some (Ok a, st).
Definition throw {A} (e : exn) : M A := fun _ st => Some (Throw e, st).
Definition lift {A} (r : res A) : M A := fun _ st => Some (r, st).

Definition bind {A B} (m : M A) (k : A -> M B) : M B :=
  fun n st =>
    match m n st with
    | None => None
    | Some (Ok a, st') => k a n st'
    | Some (Throw e, st') => Some (Throw e, st')
    end.

Notation "'let!' x := m 'in' k" := (bind m (fun x => k))
  (at level 10, x name, m at level 100, k at level 200).
Notation "'run!' m 'in' k" := (bind m (fun _ => k))
  (at level 10, m at level 100, k at level 200).

(** [try { m } catch (e) { h e }] *)
Definition try_catch {A} (m : M A) (h : exn -> M A) : M A :=
  fun n st =>
    match m n st with
    | Some (Throw e, st') => h e n st'
    | r => r
    end.

Definition get_state : M State := fun _ st => Some (Ok st, st).
Definition put_rss_cache (c : CacheEntry) : M unit :=
  fun _ st => Some (Ok tt, mkState (Some c) (reddit_cache st) (requests st)).
Definition put_reddit_cache (c : CacheEntry) : M unit :=
  fun _ st => Some (Ok tt, mkState (rss_cache st) (Some c) (requests st)).
Definition log_request (url : JS.string) : M unit :=
  fun _ st => Some (Ok tt, mkState (rss_cache st) (reddit_cache st) (requests st ++ [url])).

(** [Promise.all(ms)]: every branch runs; the results come in array order;
    a rejected branch rejects the whole.  The branches of this program touch
    the state only by appending to the request log, and none of them rejects,
    so the order in which they are run here, and which rejection would win,
    cannot be observed. *)
Fixpoint Promise_all {A} (ms : list (M A)) : M (list A) :=
  match ms with
  | [] => ret []
  | m :: rest =>
      fun n st =>
        match m n st with
        | None => None
        | Some (r, st') =>
            match Promise_all rest n st' with
            | None => None
            | Some (rs, st'') =>
                Some (match r, rs with
                      | Ok a, Ok l => Ok (a :: l)
                      | Throw e, _ => Throw e
                      | Ok _, Throw e => Throw e
                      end, st'')
            end
        end
  end.

(** ** Shared pieces of the two fetchers and of the route *)

(** [s.length > 500 ? s.slice(0, 497) + "…" : s]
    (rss.ts line 80, reddit.ts line 138). *)
Definition clip (s : JS.string) : JS.string :=
  if (500 <? JS.length s)%nat then JS.slice0 497 s ++ JS.ellipsis else s.

(** The loop [for (const x of xs) { const n = f(x); if (n) items.push(n); }] *)
Fixpoint collect {A} (f : A -> res (option NewsItem)) (xs : list A)
  : res (list NewsItem) :=
  match xs with
  | [] => Ok []
  | x :: r =>
      match f x with
      | Throw e => Throw e
      | Ok o =>
          match collect f r with
          | Throw e => Throw e
          | Ok items => Ok (match o with Some i => i :: items | None => items end)
          end
      end
  end.

(** The de-duplication loop (rss.ts lines 125-133, route.ts lines 20-28):
    [seen] is the [Set] of links met so far, [unique] the array built. *)
Definition dedup_step (acc : gset (list Z) * list NewsItem) (item : NewsItem)
  : gset (list Z) * list NewsItem :=
  if decide (link item ∈ acc.1)
  then acc
  else ({[ link item ]} ∪ acc.1, acc.2 ++ [item]).

Definition dedupByLink (allItems : list NewsItem) : list NewsItem :=
  (fold_left dedup_step allItems (∅, [])).2.

(** [Array.prototype.sort(compare)]: the stable sort, here by insertion.
    [compare a b <= 0] keeps [a] in front of [b]. *)
Section ArraySort.
Context {A : Type} (compare : A -> A -> Z).

Fixpoint sort_insert (x : A) (l : list A) : list A :=
  match l with
  | [] => [x]
  | y :: r => if compare x y <=? 0 then x :: y :: r else y :: sort_insert x r
  end.

Definition Array_sort (l : list A) : list A := fold_right sort_insert [] l.
End ArraySort.

(** [(a, b) => new Date(b.publishedAt).getTime() - new Date(a.publishedAt).getTime()] *)
Definition byDateDesc (a b : NewsItem) : Z := publishedAt b - publishedAt a.

(** ** RSS ([rss.ts]) *)

Definition RSS_FEED_URLS : list JS.string :=
  [JS.lit "https://rss.nytimes.com/services/xml/rss/nyt/HomePage.xml";
   JS.lit "https://feeds.bbci.co.uk/news/rss.xml";
   JS.lit "https://www.theguardian.com/world/rss";
   JS.lit "https://rss.cnn.com/rss/edition.rss";
   JS.lit "https://feeds.nbcnews.com/nbcnews/public/news"].

(** The same constant in rss.ts and in reddit.ts. *)
Definition CACHE_TTL_MS : Z := 5 * 60 * 1000.

(** [cache && Date.now() < cache.expiresAt] *)
Definition cache_valid (cache : option CacheEntry) (now : Z) : bool :=
  match cache with
  | Some c => now <? expiresAt c
  | None => false
  end.

(** [o?.trim() || d] *)
Definition trimmed_or (o : option JS.string) (d : JS.string) : JS.string :=
  match o with
  | Some s => JS.or_else (JS.trim s) d
  | None => d
  end.

Definition extractSource (feed : Feed) : res JS.string :=
  match trimmed_or (feed_title feed) [] with
  | [] =>
      match feed_hostname feed with
      | Some h => Ok h
      | None => Throw TypeError
      end
  | t => Ok t
  end.

(** The [summary] constant of [normaliseItem] (lines 66-69):
    [item.contentSnippet?.trim() || item.content?.replace(/<[^>]*>/g, "").trim() || ""] *)
Definition item_summary (item : RssItem) : JS.string :=
  JS.or_else (trimmed_or (item_contentSnippet item) [])
    (match item_content item with
     | Some c => JS.trim (JS.strip_tags c)
     | None => []
     end).

Definition normaliseItem (now : Z) (item : RssItem) (source : JS.string)
  : res (option NewsItem) :=
  match trimmed_or (item_link item) [] with
  | [] => Ok None
  | link =>
      let title := trimmed_or (item_title item) (JS.lit "(no title)") in
      let summary := item_summary item in
      match
        match item_isoDate item with
        | Some d => Date.toISOString d
        | None => Ok now
        end
      with
      | Throw e => Throw e
      | Ok publishedAt =>
          Ok (Some (mkNewsItem (makeId link) title link source publishedAt
                               (clip summary)))
      end
  end.

Definition fetchFeed (w : World) (url : JS.string) : M (list NewsItem) :=
  try_catch
    (run! log_request url in
     let! feed := lift (parseURL w url) in
     let! source := lift (extractSource feed) in
     lift (collect (fun entry => normaliseItem (Date_now w (RssItemFallback url)) entry source)
                   (feed_items feed)))
    (fun _ => ret []).

Definition getNews (w : World) : M (list NewsItem) :=
  let! st := get_state in
  if cache_valid (rss_cache st) (Date_now w RssCacheCheck)
  then ret (match rss_cache st with Some c => data c | None => [] end)
  else
    let! results := Promise_all (List.map (fetchFeed w) RSS_FEED_URLS) in
    let allItems := concat results in
    let unique := Array_sort byDateDesc (dedupByLink allItems) in
    run! put_rss_cache (mkCacheEntry unique (Date_now w RssCacheStore + CACHE_TTL_MS)) in
    ret unique.

(** ** Reddit ([reddit.ts]) *)

Definition SUBREDDITS : list JS.string :=
  [JS.lit "worldnews"; JS.lit "news"; JS.lit "technology";
   JS.lit "science"; JS.lit "finance"; JS.lit "politics"].

Definition POSTS_PER_SUB : Z := 25.

(** One [https.get] and what the callback does with the response; a
    redirect calls [fetchJSON] again with one unit of fuel less. *)
Fixpoint fetchJSON_fuel (w : World) (n : nat) (url : JS.string) (st : State)
  : option (res RedditListing * State) :=
  match n with
  | O => None
  | S n' =>
      let st' := mkState (rss_cache st) (reddit_cache st) (requests st ++ [url]) in
      match https_get w url with
      | RequestError => Some (Throw NetworkError, st')
      | Response statusCode location body =>
          match location with
          | Some (c :: l) =>
              if (300 <=? statusCode) && (statusCode <? 400)
              then fetchJSON_fuel w n' (c :: l) st'
              else if statusCode =? 200 then Some (body, st')
              else Some (Throw (HttpError statusCode), st')
          | _ =>
              if statusCode =? 200 then Some (body, st')
              else Some (Throw (HttpError statusCode), st')
          end
      end
  end.

Definition fetchJSON (w : World) (url : JS.string) : M RedditListing :=
  fun n st => fetchJSON_fuel w n url st.

(** The [cleaned] constant of [normalisePost] (line 136):
    [data.selftext.replace(/\n{2,}/g, " ").trim()] *)
Definition post_cleaned (post : RedditPost) : JS.string :=
  JS.trim (JS.collapse_blank_lines (post_selftext post)).

Definition normalisePost (post : RedditPost) : res (option NewsItem) :=
  if post_stickied post || negb (JS.truthy (trimmed_or (post_title post) []))
  then Ok None
  else
    let link :=
      if post_is_self post
      then Some (JS.lit "https://www.reddit.com" ++ post_permalink post)
      else post_url post in
    match link with
    | None | Some [] => Ok None
    | Some link =>
        let title := trimmed_or (post_title post) [] in
        let source := JS.lit "r/" ++ post_subreddit post in
        match Date.toISOString (Date.of_number (post_created_utc post * 1000)) with
        | Throw e => Throw e
        | Ok publishedAt =>
            let summary :=
              if JS.truthy (post_selftext post)
              then clip (post_cleaned post)
              else [] in
            Ok (Some (mkNewsItem (makeId link) title link source publishedAt summary))
        end
    end.

Definition subreddit_url (name : JS.string) : JS.string :=
  JS.lit "https://www.reddit.com/r/" ++ name ++ JS.lit "/hot.json?limit="
    ++ JS.of_number POSTS_PER_SUB ++ JS.lit "&raw_json=1".

Definition fetchSubreddit (w : World) (name : JS.string) : M (list NewsItem) :=
  try_catch
    (let! listing := fetchJSON w (subreddit_url name) in
     match listing with
     | None => throw TypeError
     | Some children => lift (collect normalisePost children)
     end)
    (fun _ => ret []).

Definition getRedditNews (w : World) : M (list NewsItem) :=
  let! st := get_state in
  if cache_valid (reddit_cache st) (Date_now w RedditCacheCheck)
  then ret (match reddit_cache st with Some c => data c | None => [] end)
  else
    let! results := Promise_all (List.map (fetchSubreddit w) SUBREDDITS) in
    let allItems := concat results in
    run! put_reddit_cache (mkCacheEntry allItems (Date_now w RedditCacheStore + CACHE_TTL_MS)) in
    ret allItems.

(** ** The route ([app/api/news/route.ts]) *)

Inductive NextResponse :=
| Json200 (count : nat) (items : list NewsItem)
| Json500 (error : JS.string).

(** Lines 17-34: merge, de-duplicate, sort. *)
Definition mergeSources (rssItems redditItems : list NewsItem) : list NewsItem :=
  let allItems := rssItems ++ redditItems in
  Array_sort byDateDesc (dedupByLink allItems).

Definition GET (w : World) : M NextResponse :=
  try_catch
    (let! both := Promise_all [getNews w; getRedditNews w] in
     match both with
     | [rssItems; redditItems] =>
         let unique := mergeSources rssItems redditItems in
         ret (Json200 (List.length unique) unique)
     | _ => throw TypeError
     end)
    (fun _ => ret (Json500 (JS.lit "Failed to fetch news feeds"))).

(** ** The fallback generator ([lib/practice.ts]) *)

(** [for (let i = 0; i < n; i++) out.push(f(i))] with an [f] that may throw. *)
Fixpoint for_each {A B} (f : A -> res B) (xs : list A) : res (list B) :=
  match xs with
  | [] => Ok []
  | x :: r =>
      match f x with
      | Throw e => Throw e
      | Ok y =>
          match for_each f r with
          | Throw e => Throw e
          | Ok ys => Ok (y :: ys)
          end
      end
  end.

Module Practice.

Record PracticeContent := mkPracticeContent {
  bullets : list JS.string;
  steps : list JS.string;
  exercises : list (JS.string * JS.string)      (* [{ q, a }] *)
}.

(** [toLowerCase] on one code unit.  Only the lower-casings that can be seen
    through the filter [/[^a-z0-9\s]/g] that follows are written out: A-Z,
    U+0130 (an [i] followed by U+0307) and U+212A (the Kelvin sign, [k]).
    Every other unit is left as it is, which differs from JavaScript only on
    units that the filter deletes either way. *)
Definition lower_unit (c : Z) : list Z :=
  if (0x41 <=? c) && (c <=? 0x5A) then [c + 0x20]
  else if c =? 0x130 then [0x69; 0x307]
  else if c =? 0x212A then [0x6B]
  else [c].

Definition toLowerCase (s : JS.string) : JS.string := flat_map lower_unit s.

(** The class [[a-z0-9\s]]. *)
Definition is_word_or_space (c : Z) : bool :=
  ((0x61 <=? c) && (c <=? 0x7A)) || ((0x30 <=? c) && (c <=? 0x39)) || JS.is_space c.

(** [s.replace(/[^a-z0-9\s]/g, "")] *)
Definition keep_word_chars (s : JS.string) : JS.string :=
  List.filter is_word_or_space s.

(** [s.split(/\s+/)]: [cur] is the field being read (reversed), [in_gap]
    says that the last unit read was white space. *)
Fixpoint split_fields (cur : JS.string) (in_gap : bool) (s : JS.string)
  : list JS.string :=
  match s with
  | [] => [rev cur]
  | c :: r =>
      if JS.is_space c
      then if in_gap then split_fields cur true r
           else rev cur :: split_fields [] true r
      else split_fields (c :: cur) false r
  end.

Definition split_spaces (s : JS.string) : list JS.string := split_fields [] false s.

Definition stopWords : list JS.string :=
  [JS.lit "about";
   JS.lit "after";
   JS.lit "again";
   JS.lit "being";
   JS.lit "between";
   JS.lit "could";
   JS.lit "does";
   JS.lit "during";
   JS.lit "every";
   JS.lit "found";
   JS.lit "from";
   JS.lit "going";
   JS.lit "great";
   JS.lit "have";
   JS.lit "into";
   JS.lit "just";
   JS.lit "might";
   JS.lit "more";
   JS.lit "much";
   JS.lit "never";
   JS.lit "only";
   JS.lit "other";
   JS.lit "over";
   JS.lit "people";
   JS.lit "really";
   JS.lit "should";
   JS.lit "since";
   JS.lit "still";
   JS.lit "their";
   JS.lit "them";
   JS.lit "then";
   JS.lit "there";
   JS.lit "these";
   JS.lit "they";
   JS.lit "this";
   JS.lit "those";
   JS.lit "through";
   JS.lit "under";
   JS.lit "very";
   JS.lit "want";
   JS.lit "were";
   JS.lit "what";
   JS.lit "when";
   JS.lit "where";
   JS.lit "which";
   JS.lit "while";
   JS.lit "will";
   JS.lit "with";
   JS.lit "would";
   JS.lit "your"].


(** The loop that keeps the first occurrence of each word. *)
Definition unique_step (acc : gset (list Z) * list JS.string) (w : JS.string)
  : gset (list Z) * list JS.string :=
  if decide (w ∈ acc.1) then acc else ({[ w ]} ∪ acc.1, acc.2 ++ [w]).

Definition extractKeywords (text : JS.string) (max : nat) : list JS.string :=
  let stopSet : gset (list Z) := list_to_set stopWords in
  let words :=
    List.filter (fun w => (4 <? JS.length w)%nat && negb (bool_decide (w ∈ stopSet)))
                (split_spaces (keep_word_chars (toLowerCase text))) in
  let unique := (fold_left unique_step words (∅, [])).2 in
  firstn max unique.

(** [x << k] on numbers: both sides of the operation are 32-bit integers. *)
Definition to_int32 (x : Z) : Z := (x + 2 ^ 31) mod 2 ^ 32 - 2 ^ 31.
Definition shl (x k : Z) : Z := to_int32 (Z.shiftl (to_int32 x) k).

(** [x >>> 0] *)
Definition to_uint32 (x : Z) : Z := x mod 2 ^ 32.

Definition hash_step (h c : Z) : Z := to_uint32 (shl h 5 + h + c).

Definition hash (s : JS.string) : Z := fold_left hash_step s 5381.

(** [arr[(seed + index) % arr.length]]; [None] is [undefined]. *)
Definition pick {T} (arr : list T) (seed index : Z) : option T :=
  match arr with
  | [] => None
  | _ =>
      let i := Z.rem (seed + index) (Z.of_nat (List.length arr)) in
      if i <? 0 then None else arr !! Z.to_nat i
  end.

Definition BULLET_TEMPLATES : list (JS.string -> JS.string) :=
  [(fun kw => JS.lit "The core issue revolves around " ++ kw ++ JS.lit " and its broader implications.");
   (fun kw => JS.lit "Experts highlight the growing significance of " ++ kw ++ JS.lit " in this context.");
   (fun kw => JS.lit "Recent developments in " ++ kw ++ JS.lit " have accelerated the pace of change.");
   (fun kw => JS.lit "Stakeholders are divided on how " ++ kw ++ JS.lit " should be addressed going forward.");
   (fun kw => JS.lit "Data suggests that " ++ kw ++ JS.lit " plays a larger role than previously understood.");
   (fun kw => JS.lit "The relationship between " ++ kw ++ JS.lit " and public policy is becoming clearer.");
   (fun kw => JS.lit "Understanding " ++ kw ++ JS.lit " is essential for grasping the full picture.");
   (fun kw => JS.lit "Long-term trends indicate " ++ kw ++ JS.lit " will remain a focal point.");
   (fun kw => JS.lit "Critics argue the focus on " ++ kw ++ JS.lit " overlooks other contributing factors.");
   (fun kw => JS.lit "New research sheds light on the mechanics behind " ++ kw ++ JS.lit ".")].

Definition STEP_TEMPLATES : list (JS.string -> JS.string) :=
  [(fun kw => JS.lit "Research the fundamentals of " ++ kw ++ JS.lit " using reputable sources.");
   (fun kw => JS.lit "Identify three real-world examples where " ++ kw ++ JS.lit " is directly relevant.");
   (fun kw => JS.lit "Write a one-paragraph summary explaining " ++ kw ++ JS.lit " in your own words.");
   (fun kw => JS.lit "Create a simple diagram mapping the key relationships around " ++ kw ++ JS.lit ".");
   (fun kw => JS.lit "Discuss the topic of " ++ kw ++ JS.lit " with a peer and note differing viewpoints.");
   (fun kw => JS.lit "List the potential consequences if " ++ kw ++ JS.lit " continues on its current trajectory.");
   (fun kw => JS.lit "Draft an action plan for applying insights about " ++ kw ++ JS.lit " in your work.");
   (fun kw => JS.lit "Review a contrarian perspective on " ++ kw ++ JS.lit " and evaluate its merits.");
   (fun kw => JS.lit "Set up a simple tracking system to monitor developments in " ++ kw ++ JS.lit ".");
   (fun kw => JS.lit "Reflect on how " ++ kw ++ JS.lit " connects to topics you've studied before.")].

Definition EXERCISE_TEMPLATES : list ((JS.string -> JS.string) * (JS.string -> JS.string)) :=
  [((fun kw => JS.lit "Explain why " ++ kw ++ JS.lit " matters in the context of this article. What would change without it?"),
    (fun kw => kw ++ JS.lit " is central because it drives the main dynamic described. Without it, the situation would lack its primary catalyst and likely unfold very differently."));
   ((fun kw => JS.lit "Compare two different approaches to " ++ kw ++ JS.lit ". Which seems more sustainable?"),
    (fun kw => JS.lit "One approach focuses on short-term mitigation of " ++ kw ++ JS.lit ", while another invests in systemic change. The systemic approach is typically more sustainable but requires greater upfront commitment."));
   ((fun kw => JS.lit "If you had to brief a colleague on " ++ kw ++ JS.lit " in 60 seconds, what would you say?"),
    (fun kw => JS.lit "Focus on the single most impactful dimension of " ++ kw ++ JS.lit ": what changed, why it matters now, and what the likely next development is."));
   ((fun kw => JS.lit "What assumptions does the article make about " ++ kw ++ JS.lit "? Are they justified?"),
    (fun kw => JS.lit "The article implicitly treats " ++ kw ++ JS.lit " as a settled concern. This is partially justified by current evidence but overlooks emerging counter-arguments."));
   ((fun kw => JS.lit "Propose one investigation that could deepen understanding of " ++ kw ++ JS.lit "."),
    (fun kw => JS.lit "A comparative study of how " ++ kw ++ JS.lit " has been addressed in different regions or industries would reveal which strategies are most transferable."));
   ((fun kw => JS.lit "How might " ++ kw ++ JS.lit " evolve over the next five years? Outline two scenarios."),
    (fun kw => JS.lit "Optimistically, increased attention to " ++ kw ++ JS.lit " leads to effective policy. Pessimistically, fragmented responses cause the issue to deepen before meaningful action occurs."))].

(** [keywords[i % keywords.length]] inside a template literal. *)
Definition keyword_at (keywords : list JS.string) (i : nat) : JS.string :=
  match keywords with
  | [] => JS.lit "undefined"
  | _ => default (JS.lit "undefined") (keywords !! (i mod List.length keywords)%nat)
  end.

(** The [while (keywords.length < 8)] loop; it pushes one keyword per turn,
    so eight turns are enough. *)
Fixpoint pad_loop (turns : nat) (keywords : list JS.string) : list JS.string :=
  match turns with
  | O => keywords
  | S turns' =>
      if (List.length keywords <? 8)%nat
      then
        let n := List.length keywords in
        pad_loop turns'
          (keywords ++ [default (JS.lit "this topic")
                                (keywords !! (n mod Nat.max n 1)%nat)])
      else keywords
  end.

Definition pad_keywords (keywords : list JS.string) : list JS.string :=
  pad_loop 8 keywords.

(** Calling what [pick] returned: calling [undefined] is a TypeError. *)
Definition call {A B} (f : option (A -> B)) (x : A) : res B :=
  match f with
  | Some g => Ok (g x)
  | None => Throw TypeError
  end.

Definition generateFallbackContent (title summary : JS.string) : res PracticeContent :=
  let keywords := pad_keywords (extractKeywords (title ++ JS.lit " " ++ summary) 8) in
  let seed := hash title in
  match
    for_each (fun i => call (pick BULLET_TEMPLATES seed (Z.of_nat i))
                            (keyword_at keywords i))
             (seq 0 5)
  with
  | Throw e => Throw e
  | Ok bullets =>
      let stepCount := 5 + Z.rem seed 4 in
      match
        for_each (fun i => call (pick STEP_TEMPLATES seed (Z.of_nat i + 10))
                                (keyword_at keywords (i + 2)))
                 (seq 0 (Z.to_nat stepCount))
      with
      | Throw e => Throw e
      | Ok steps =>
          match
            for_each (fun i =>
                        match pick EXERCISE_TEMPLATES seed (Z.of_nat i + 20) with
                        | Some tpl =>
                            let kw := keyword_at keywords (i + 4) in
                            Ok (tpl.1 kw, tpl.2 kw)
                        | None => Throw TypeError
                        end)
                     (seq 0 3)
          with
          | Throw e => Throw e
          | Ok exercises => Ok (mkPracticeContent bullets steps exercises)
          end
      end
  end.

End Practice.

(** ** JSON values, as [JSON.parse] and [req.json()] return them *)

Inductive json :=
| JNull
| JBool (b : bool)
| JNumber                       (* some number; the code never reads it *)
| JString (s : JS.string)
| JArray (items : list json)
| JObject (fields : list (JS.string * json)).

(** [v.key] for the keys the code reads ([title], [bullets], [q], ...) on a
    value that is not [null]: [undefined] unless [v] is an object that has
    the property.  The fields of an object are its members in the order of
    the text; a later member overrides an earlier one with the same key. *)
Definition prop (key : JS.string) (v : json) : option json :=
  match v with
  | JObject fields =>
      snd <$> List.find (fun kv => bool_decide (kv.1 = key)) (rev fields)
  | _ => None
  end.

(** [typeof v === "object" && v !== null] *)
Definition is_object (v : json) : bool :=
  match v with
  | JArray _ | JObject _ => true
  | _ => false
  end.

(** [typeof obj.key === "string" ? obj.key.trim() : ""] *)
Definition trimmed_string_prop (key : JS.string) (obj : json) : JS.string :=
  match prop key obj with
  | Some (JString s) => JS.trim s
  | _ => []
  end.

(** [try { ... } catch { handler }] on a computation without state. *)
Definition catch {A} (body : res A) (handler : exn -> res A) : res A :=
  match body with
  | Ok a => Ok a
  | Throw e => handler e
  end.

(** ** The language model client ([lib/llm.ts]) *)

(** What the process is given: the API key of the environment, the answers
    of the completion service, and the platform's JSON parser.  An answer is
    [completion.choices[0]?.message?.content] ([None] when there is none), or
    the error with which the call rejects; it is taken as a function of the
    arguments from which the prompt is built. *)
Record Collaborators := mkCollaborators {
  OPENAI_API_KEY : option JS.string;
  complete_practice : JS.string -> JS.string -> list JS.string -> res (option JS.string);
  complete_help : JS.string -> JS.string -> JS.string -> res (option JS.string);
  JSON_parse : JS.string -> res json
}.

Module Llm.

(** [getClient]: throws without an API key.  (The client object it caches
    carries no other information.) *)
Definition getClient (env : Collaborators) : res unit :=
  match OPENAI_API_KEY env with
  | Some (c :: k) => Ok tt
  | _ => Throw TypeError
  end.

Definition fence : JS.string := JS.lit "```".

Fixpoint starts_with (prefix s : JS.string) : bool :=
  match prefix, s with
  | [], _ => true
  | p :: prefix', c :: s' => (p =? c) && starts_with prefix' s'
  | _ :: _, [] => false
  end.

(** [json] in either case, as the flag [i] lets it match. *)
Definition starts_with_json (s : JS.string) : bool :=
  match s with
  | j :: s' :: o :: n :: _ =>
      ((j =? 0x6A) || (j =? 0x4A)) && ((s' =? 0x73) || (s' =? 0x53))
      && ((o =? 0x6F) || (o =? 0x4F)) && ((n =? 0x6E) || (n =? 0x4E))
  | _ => false
  end.

(** [raw.replace(/^```(?:json)?\s*/i, "")] *)
Definition strip_opening_fence (raw : JS.string) : JS.string :=
  if starts_with fence raw
  then
    let rest := skipn 3 raw in
    JS.trim_start (if starts_with_json rest then skipn 4 rest else rest)
  else raw.

(** [s.replace(/\s*```\s*$/, "")]: the match, if there is one, is the fence
    that ends the text apart from white space, together with the white space
    on both sides of it. *)
Definition strip_closing_fence (s : JS.string) : JS.string :=
  let t := JS.trim_end s in
  if starts_with (rev fence) (rev t)
  then JS.trim_end (rev (skipn 3 (rev t)))
  else s.

Definition strings_of (items : list json) : list JS.string :=
  omap (fun v => match v with JString s => Some s | _ => None end) items.

(** The exercises that pass the filter, as [{ q: e.q, a: e.a }]. *)
Definition exercises_of (items : list json) : list (JS.string * JS.string) :=
  omap (fun e =>
          if is_object e
          then match prop (JS.lit "q") e, prop (JS.lit "a") e with
               | Some (JString q), Some (JString a) => Some (q, a)
               | _, _ => None
               end
          else None)
       items.

Definition parseResponse (env : Collaborators) (raw : JS.string)
  : option Practice.PracticeContent :=
  let cleaned := JS.trim (strip_closing_fence (strip_opening_fence raw)) in
  match JSON_parse env cleaned with
  | Throw _ => None
  | Ok JNull => None                  (* [obj.bullets] throws, the catch returns null *)
  | Ok obj =>
      match prop (JS.lit "bullets") obj, prop (JS.lit "steps") obj,
            prop (JS.lit "exercises") obj with
      | Some (JArray bs), Some (JArray ss), Some (JArray es) =>
          let bullets := firstn 5 (strings_of bs) in
          let steps := firstn 8 (strings_of ss) in
          let exercises := firstn 3 (exercises_of es) in
          match bullets, steps, exercises with
          | [], [], [] => None
          | _, _, _ => Some (Practice.mkPracticeContent bullets steps exercises)
          end
      | _, _, _ => None
      end
  end.

Definition generateHelpAnswer (env : Collaborators) (title summary question : JS.string)
  : res (option JS.string) :=
  catch
    (match getClient env with
     | Throw e => Throw e
     | Ok _ =>
         match complete_help env title summary question with
         | Throw e => Throw e
         | Ok content =>
             match JS.trim <$> content with
             | Some (c :: text) => Ok (Some (c :: text))
             | _ => Ok None
             end
         end
     end)
    (fun _ => Ok None).

Definition generateWithLLM (env : Collaborators) (title summary : JS.string)
  (topics : list JS.string) : res (option Practice.PracticeContent) :=
  catch
    (match getClient env with
     | Throw e => Throw e
     | Ok _ =>
         match complete_practice env title summary topics with
         | Throw e => Throw e
         | Ok (Some (c :: text)) => Ok (parseResponse env (c :: text))
         | Ok _ => Ok None
         end
     end)
    (fun _ => Ok None).

End Llm.

(** ** The help route ([app/api/help/route.ts]) *)

Module Help.

Record HelpRequest := mkHelpRequest {
  title : JS.string;
  summary : JS.string;
  question : JS.string
}.

Definition validateBody (body : json) : option HelpRequest :=
  if negb (is_object body) then None
  else
    let title := trimmed_string_prop (JS.lit "title") body in
    let summary := trimmed_string_prop (JS.lit "summary") body in
    let question := trimmed_string_prop (JS.lit "question") body in
    if negb (JS.truthy title) || negb (JS.truthy question) then None
    else Some (mkHelpRequest title summary question).

Inductive Response :=
| Json200 (answer : JS.string)
| Json400 (error : JS.string)
| Json500 (error : JS.string).

Definition fallback_answer : JS.string :=
  JS.lit "I wasn't able to generate a detailed answer right now. "
  ++ JS.lit "Try thinking about how the key concepts in the article " ++ [0x2014]
  ++ JS.lit " as outlined in the summary bullets above " ++ [0x2014]
  ++ JS.lit " relate to this question. "
  ++ JS.lit "Consider the cause-and-effect relationships, the stakeholders involved, "
  ++ JS.lit "and what practical implications follow from the article's main points.".

(** [request] is what [req.json()] gives: the parsed body, or a rejection. *)
Definition POST (env : Collaborators) (request : res json) : res Response :=
  catch
    (let body := match request with Ok b => b | Throw _ => JNull end in
     match validateBody body with
     | None =>
         Ok (Json400 (JS.lit "Invalid request body. `title` (string) and `question` (string) are required."))
     | Some input =>
         match
           match OPENAI_API_KEY env with
           | Some (c :: k) =>
               Llm.generateHelpAnswer env (title input) (summary input) (question input)
           | _ => Ok None
           end
         with
         | Throw e => Throw e
         | Ok answer =>
             Ok (Json200 (match answer with
                          | Some (c :: text) => c :: text
                          | _ => fallback_answer
                          end))
         end
     end)
    (fun _ => Ok (Json500 (JS.lit "Failed to generate help answer"))).

End Help.

(** ** The practice route ([app/api/practice/route.ts]) *)

Module PracticeRoute.

Record PracticeRequest := mkPracticeRequest {
  title : JS.string;
  summary : JS.string;
  topics : list JS.string
}.

(** [obj.topics.filter(isString).map((t) => t.trim()).filter(Boolean)] *)
Definition topics_of (items : list json) : list JS.string :=
  List.filter JS.truthy (List.map JS.trim (Llm.strings_of items)).

Definition validateBody (body : json) : option PracticeRequest :=
  if negb (is_object body) then None
  else
    let title := trimmed_string_prop (JS.lit "title") body in
    let summary := trimmed_string_prop (JS.lit "summary") body in
    let topics :=
      match prop (JS.lit "topics") body with
      | Some (JArray items) => topics_of items
      | _ => []
      end in
    if negb (JS.truthy title) then None
    else Some (mkPracticeRequest title summary topics).

Inductive Source := llm | fallback.

Inductive Response :=
| Json200 (source : Source) (content : Practice.PracticeContent)
| Json400 (error : JS.string)
| Json500 (error : JS.string).

Definition POST (env : Collaborators) (request : res json) : res Response :=
  catch
    (let body := match request with Ok b => b | Throw _ => JNull end in
     match validateBody body with
     | None =>
         Ok (Json400 (JS.lit "Invalid request body. At minimum, `title` (string) is required."))
     | Some input =>
         match
           match OPENAI_API_KEY env with
           | Some (c :: k) =>
               Llm.generateWithLLM env (title input) (summary input) (topics input)
           | _ => Ok None
           end
         with
         | Throw e => Throw e
         | Ok (Some content) => Ok (Json200 llm content)
         | Ok None =>
             match Practice.generateFallbackContent (title input) (summary input) with
             | Throw e => Throw e
             | Ok content => Ok (Json200 fallback content)
             end
         end
     end)
    (fun _ => Ok (Json500 (JS.lit "Failed to generate practice content"))).

End PracticeRoute.

(** ** The feed page ([app/page.tsx]) *)

Module FeedPage.

(** [timeAgo]: [iso] is the date the text denotes, [now] is [Date.now()];
    [Math.floor] of a quotient is the division of [Z].  The locale-dependent
    [toLocaleDateString] is a parameter; an Invalid Date fails every
    comparison and ends there too. *)
Definition timeAgo (toLocaleDateString : Date.t -> JS.string) (now : Z) (iso : Date.t)
  : JS.string :=
  match iso with
  | None => toLocaleDateString iso
  | Some t =>
      let seconds := (now - t) / 1000 in
      if seconds <? 60 then JS.lit "just now"
      else
        let minutes := seconds / 60 in
        if minutes <? 60 then JS.of_number minutes ++ JS.lit "m ago"
        else
          let hours := minutes / 60 in
          if hours <? 24 then JS.of_number hours ++ JS.lit "h ago"
          else
            let days := hours / 24 in
            if days <? 7 then JS.of_number days ++ JS.lit "d ago"
            else toLocaleDateString iso
  end.

End FeedPage.

(** ** The article page ([app/article/[id]/page.tsx])

    [fetchArticle] asks the route for the list and looks the article up:
    [(data.items as NewsItem[]).find((i) => i.id === id)]. *)
Definition findArticle (wanted : JS.string) (items : list NewsItem) : option NewsItem :=
  List.find (fun i => bool_decide (id i = wanted)) items.

(** * Vocabulary of the statements *)

(** Most recent first. *)
Definition newer_first (a b : NewsItem) : Prop := publishedAt a >= publishedAt b.

(** The items of [l] whose link is neither in [seen] nor carried by an
    earlier item of [l]: what the de-duplication loop appends to [unique]. *)
Fixpoint keep_first (seen : gset (list Z)) (l : list NewsItem) : list NewsItem :=
  match l with
  | [] => []
  | x :: r =>
      if decide (link x ∈ seen) then keep_first seen r
      else x :: keep_first ({[ link x ]} ∪ seen) r
  end.

(** The items of [l] that carry the link [k], in the order of [l]. *)
Definition with_link (k : JS.string) (l : list NewsItem) : list NewsItem :=
  filter (fun y => link y = k) l.

(** The state after the requests [urls] have been issued. *)
Definition log (urls : list JS.string) (st : State) : State :=
  mkState (rss_cache st) (reddit_cache st) (requests st ++ urls).

(** What one feed contributes: its normalised entries, or nothing when
    anything inside [fetchFeed]'s [try] throws. *)
Definition feedItems (w : World) (url : JS.string) : list NewsItem :=
  match parseURL w url with
  | Throw _ => []
  | Ok feed =>
      match extractSource feed with
      | Throw _ => []
      | Ok source =>
          match collect (fun entry => normaliseItem (Date_now w (RssItemFallback url)) entry source)
                        (feed_items feed) with
          | Throw _ => []
          | Ok items => items
          end
      end
  end.

(** What a cache miss of [getNews] computes. *)
Definition freshNews (w : World) (urls : list JS.string) : list NewsItem :=
  Array_sort byDateDesc (dedupByLink (concat (feedItems w <$> urls))).

(** Where a response sends [fetchJSON] next, if it is a redirect. *)
Definition redirect_target (w : World) (url : JS.string) : option JS.string :=
  match https_get w url with
  | Response statusCode (Some (c :: l)) _ =>
      if (300 <=? statusCode) && (statusCode <? 400) then Some (c :: l) else None
  | _ => None
  end.

(** How [fetchJSON] settles on a response that is not a redirect. *)
Definition final_answer (w : World) (url : JS.string) : res RedditListing :=
  match https_get w url with
  | RequestError => Throw NetworkError
  | Response statusCode _ body =>
      if statusCode =? 200 then body else Throw (HttpError statusCode)
  end.

(** The redirect chain that starts at [url] comes to an end. *)
Inductive redirects_end (w : World) : JS.string -> Prop :=
| redirects_end_here url :
    redirect_target w url = None -> redirects_end w url
| redirects_end_next url loc :
    redirect_target w url = Some loc -> redirects_end w loc -> redirects_end w url.

(** [fetchJSON] without the state: the answer and the URLs requested. *)
Fixpoint follow (w : World) (n : nat) (url : JS.string)
  : option (res RedditListing * list JS.string) :=
  match n with
  | O => None
  | S n' =>
      match redirect_target w url with
      | Some loc =>
          match follow w n' loc with
          | Some (r, urls) => Some (r, url :: urls)
          | None => None
          end
      | None => Some (final_answer w url, [url])
      end
  end.

(** What one subreddit contributes, and the URLs requested for it. *)
Definition subredditItems (w : World) (n : nat) (name : JS.string)
  : option (list NewsItem * list JS.string) :=
  match follow w n (subreddit_url name) with
  | None => None
  | Some (r, urls) =>
      Some (match r with
            | Ok (Some children) =>
                match collect normalisePost children with
                | Ok items => items
                | Throw _ => []
                end
            | _ => []
            end, urls)
  end.

(** The fan-out over the subreddits. *)
Fixpoint redditFanout (w : World) (n : nat) (names : list JS.string)
  : option (list (list NewsItem) * list JS.string) :=
  match names with
  | [] => Some ([], [])
  | name :: rest =>
      match subredditItems w n name with
      | None => None
      | Some (items, urls) =>
          match redditFanout w n rest with
          | None => None
          | Some (iss, urls') => Some (items :: iss, urls ++ urls')
          end
      end
  end.

(** ** A small world to run the pipeline in

    Two feeds answer, two reject and one is empty; one subreddit answers
    after a redirect, the others answer 404.  The story [story_a] is carried
    by both feeds and by the subreddit. *)

Definition story_a : JS.string := JS.lit "https://news.example/a".
Definition story_b : JS.string := JS.lit "https://news.example/b".
Definition story_c : JS.string := JS.lit "https://news.example/c".

Definition sample_entry (l : JS.string) (t : Z) : RssItem :=
  mkRssItem (Some l) (Some (JS.lit " Headline ")) (Some (JS.lit "Text")) None
            (Some (Some t)).

Definition sample_feed (name : JS.string) (entries : list RssItem) : Feed :=
  mkFeed (Some name) None entries.

Definition sample_post (self : bool) (l : JS.string) (t : Z) : RedditPost :=
  mkRedditPost (Some (JS.lit "Post")) (Some l) (JS.lit "/r/worldnews/comments/1/")
               (if self then JS.lit "Body" else []) self false t (JS.lit "worldnews").

Definition sample_parseURL (url : JS.string) : res Feed :=
  if decide (url = JS.lit "https://rss.nytimes.com/services/xml/rss/nyt/HomePage.xml")
  then Ok (sample_feed (JS.lit "NYT") [sample_entry story_b 10; sample_entry story_a 30])
  else if decide (url = JS.lit "https://feeds.bbci.co.uk/news/rss.xml")
  then Ok (sample_feed (JS.lit "BBC") [sample_entry story_a 30; sample_entry story_c 20])
  else if decide (url = JS.lit "https://feeds.nbcnews.com/nbcnews/public/news")
  then Ok (sample_feed (JS.lit "NBC") [])
  else Throw NetworkError.

Definition sample_https_get (url : JS.string) : HttpsOutcome :=
  if decide (url = subreddit_url (JS.lit "worldnews"))
  then Response 301 (Some (JS.lit "https://old.reddit.example/hot.json")) (Throw SyntaxError)
  else if decide (url = JS.lit "https://old.reddit.example/hot.json")
  then Response 200 None
         (Ok (Some [sample_post false story_a 5; sample_post true [] 40;
                    sample_post false story_a 50]))
  else Response 404 None (Throw SyntaxError).

Definition sample_world : World :=
  mkWorld sample_parseURL sample_https_get (fun _ => 1000).

(** The same upstream, observed after the five minutes have passed. *)
Definition later_world : World :=
  mkWorld sample_parseURL sample_https_get (fun _ => 1000 + CACHE_TTL_MS).

Definition sample_out : res NextResponse * State :=
  Eval vm_compute in
    default (Throw TypeError, initial_state) (GET sample_world 2%nat initial_state).

Definition sample_rss_item : NewsItem :=
  mkNewsItem (makeId story_a) (JS.lit "Headline") story_a (JS.lit "NYT") 30 (JS.lit "Text").

Definition sample_reddit_item : NewsItem :=
  mkNewsItem (makeId story_a) (JS.lit "Post") story_a (JS.lit "r/worldnews") 5000 [].

(** The summary a normaliser stored, when it produced an item. *)
Definition stored_summary (r : res (option NewsItem)) : option JS.string :=
  match r with
  | Ok (Some n) => Some (summary n)
  | _ => None
  end.

(** The link a normaliser stored, when it produced an item. *)
Definition stored_link (r : res (option NewsItem)) : option JS.string :=
  match r with
  | Ok (Some n) => Some (link n)
  | _ => None
  end.

(** A text of 501 characters, and an entry and a self post that carry it. *)
Definition long_text : JS.string := repeat 0x61 501.

Definition long_entry : RssItem :=
  mkRssItem (Some story_a) None (Some long_text) None (Some (Some 0)).

Definition long_post : RedditPost :=
  mkRedditPost (Some (JS.lit "Post")) None (JS.lit "/r/worldnews/comments/1/")
               long_text true false 0 (JS.lit "worldnews").

Definition long_entry_item : NewsItem :=
  Eval vm_compute in
    match normaliseItem 0 long_entry (JS.lit "NYT") with
    | Ok (Some n) => n
    | _ => sample_rss_item
    end.

(** A self post whose permalink is empty and that has no URL. *)
Definition rootless_post : RedditPost :=
  mkRedditPost (Some (JS.lit "Post")) None [] [] true false 0 (JS.lit "worldnews").

(** The sixteen lower-case hexadecimal digits, and all words of a given
    length over them. *)
Definition hex_digits : list Z :=
  [0x30; 0x31; 0x32; 0x33; 0x34; 0x35; 0x36; 0x37; 0x38; 0x39;
   0x61; 0x62; 0x63; 0x64; 0x65; 0x66].

Fixpoint hex_words (k : nat) : list JS.string :=
  match k with
  | O => [[]]
  | S k' => d ← hex_digits; (fun s => d :: s) <$> hex_words k'
  end.

(** An unbounded family of well-formed links. *)
Definition example_link (n : nat) : JS.string :=
  JS.lit "https://news.example/" ++ repeat 0x61 n.

(** The two feeds that reject in [sample_world]. *)
Definition failed_feeds : list JS.string :=
  [JS.lit "https://www.theguardian.com/world/rss";
   JS.lit "https://rss.cnn.com/rss/edition.rss"].

(** An upstream that answers with a redirect as long as the URL is shorter
    than [stop] code units, each time to a URL one unit longer, and then
    answers 200 with an empty listing. *)
Definition chain_world (stop : nat) : World :=
  mkWorld (fun _ => Throw NetworkError)
          (fun url =>
             if (List.length url <? stop)%nat
             then Response 301 (Some (0x61 :: url)) (Throw SyntaxError)
             else Response 200 None (Ok (Some [])))
          (fun _ => 0).

(** The URLs requested along [j] such redirects. *)
Fixpoint hops (j : nat) (url : JS.string) : list JS.string :=
  match j with
  | O => [url]
  | S j' => url :: hops j' (0x61 :: url)
  end.

(** An upstream that redirects every URL to itself. *)
Definition loop_world : World :=
  mkWorld (fun _ => Throw NetworkError)
          (fun url => Response 301 (Some url) (Throw SyntaxError))
          (fun _ => 0).

(** The states the process can be in: the initial one, and those the three
    exported operations lead to. *)
Inductive reachable : State -> Prop :=
| reachable_initial : reachable initial_state
| reachable_getNews w n st r st' :
    reachable st -> getNews w n st = Some (r, st') -> reachable st'
| reachable_getRedditNews w n st r st' :
    reachable st -> getRedditNews w n st = Some (r, st') -> reachable st'
| reachable_GET w n st r st' :
    reachable st -> GET w n st = Some (r, st') -> reachable st'.

(** What [getNews] promises about a sequence it returns or stores. *)
Definition deduplicated_and_sorted (items : list NewsItem) : Prop :=
  NoDup (link <$> items) /\ Sorted newer_first items.

(** What every item built by a normaliser satisfies. *)
Definition well_formed (x : NewsItem) : Prop :=
  id x = makeId (link x) /\ link x <> [] /\ title x <> [] /\
  (JS.length (summary x) <= 500)%nat.

(** Both cache slots hold well-formed items only. *)
Definition caches_well_formed (st : State) : Prop :=
  (forall c, rss_cache st = Some c -> Forall well_formed (data c)) /\
  (forall c, reddit_cache st = Some c -> Forall well_formed (data c)).

(** A post dated past the last day a [Date] can hold. *)
Definition late_post : RedditPost :=
  mkRedditPost (Some (JS.lit "Post")) (Some story_a) (JS.lit "/r/worldnews/comments/2/")
               [] false false 8640000000001 (JS.lit "worldnews").

(** The environment carries no usable API key. *)
Definition no_api_key (env : Collaborators) : Prop :=
  OPENAI_API_KEY env = None \/ OPENAI_API_KEY env = Some [].

(** Collaborators to run the two routes with: a key, a service that always
    answers, and a parser that always sees one bullet and nothing else. *)
Definition sample_env : Collaborators :=
  mkCollaborators
    (Some (JS.lit "sk-test"))
    (fun _ _ _ => Ok (Some (JS.lit "{}")))
    (fun _ _ _ => Ok (Some (JS.lit "  An answer.  ")))
    (fun _ =>
       Ok (JObject [(JS.lit "bullets", JArray [JString (JS.lit "One bullet."); JNumber]);
                    (JS.lit "steps", JArray []);
                    (JS.lit "exercises", JArray [JObject []])])).

Definition sample_content : Practice.PracticeContent :=
  Practice.mkPracticeContent [JS.lit "One bullet."] [] [].

Definition sample_body : json :=
  JObject [(JS.lit "title", JString (JS.lit " A title "));
           (JS.lit "question", JString (JS.lit "Why?"))].

(** * Sanity checks of the embedding *)

Example sha256_constants :
  nth 0 SHA256.K 0 = 0x428a2f98 /\ nth 63 SHA256.K 0 = 0xc67178f2 /\
  SHA256.ha SHA256.H0 = 0x6a09e667 /\ SHA256.hh SHA256.H0 = 0x5be0cd19 /\
  List.length SHA256.K = 64%nat.
Proof. repeat split. Qed.

Example sha256_abc :
  SHA256.hex (SHA256.digest (JS.utf8 (JS.lit "abc")))
  = JS.lit "ba7816bf8f01cfea414140de5dae2223b00361a396177a9cb410ff61f20015ad".
Proof. vm_compute. reflexivity. Qed.

Example sha256_empty :
  SHA256.hex (SHA256.digest [])
  = JS.lit "e3b0c44298fc1c149afbf4c8996fb92427ae41e4649b934ca495991b7852b855".
Proof. vm_compute. reflexivity. Qed.

Example sha256_two_blocks :
  SHA256.hex (SHA256.digest (repeat 0x61 100))
  = JS.lit "2816597888e4a0d3a36b82b83316ab32680eb8f00f8cd3b904d681246d285a0e".
Proof. vm_compute. reflexivity. Qed.

Example makeId_example :
  makeId (JS.lit "https://example.com/a") = JS.lit "2dce0a4c50441bfc".
Proof. vm_compute. reflexivity. Qed.

Example subreddit_url_example :
  subreddit_url (JS.lit "news")
  = JS.lit "https://www.reddit.com/r/news/hot.json?limit=25&raw_json=1".
Proof. reflexivity. Qed.

Example trim_example :
  JS.trim (JS.lit "  a b  ") = JS.lit "a b".
Proof. reflexivity. Qed.

Example strip_tags_example :
  JS.strip_tags (JS.lit "<p>Hi <b>x</b> a < b <br/>") = JS.lit "Hi x a ".
Proof. reflexivity. Qed.

Example collapse_blank_lines_example :
  JS.collapse_blank_lines [0x61; 0x0A; 0x0A; 0x62; 0x0A; 0x63; 0x0A; 0x0A; 0x0A; 0x64]
  = [0x61; 0x20; 0x62; 0x0A; 0x63; 0x20; 0x64].
Proof. reflexivity. Qed.

(** * The sort *)

Section ArraySortFacts.
Context {A : Type} (compare : A -> A -> Z).

Lemma sort_insert_perm x l : sort_insert compare x l ≡ₚ x :: l.
Proof.
  induction l as [|y r IH]; simpl; [done|].
  destruct (compare x y <=? 0); [done|].
  rewrite IH. apply Permutation_swap.
Qed.

Lemma Array_sort_perm l : Array_sort compare l ≡ₚ l.
Proof.
  induction l as [|x l IH]; simpl; [done|].
  rewrite sort_insert_perm. by rewrite IH.
Qed.

Lemma Array_sort_elem_of x l : x ∈ Array_sort compare l <-> x ∈ l.
Proof. by rewrite Array_sort_perm. Qed.

Lemma Array_sort_length l : List.length (Array_sort compare l) = List.length l.
Proof. by rewrite Array_sort_perm. Qed.

(** Whenever [compare] is total, the result is in order. *)
Hypothesis compare_total : forall x y, compare x y <= 0 \/ compare y x <= 0.

Lemma sort_insert_sorted x l :
  Sorted (fun a b => compare a b <= 0) l ->
  Sorted (fun a b => compare a b <= 0) (sort_insert compare x l).
Proof.
  induction 1 as [|y r Hr IH Hhd]; simpl.
  - repeat constructor.
  - destruct (Z.leb_spec (compare x y) 0) as [Hle|Hgt].
    + constructor; [by constructor|by constructor].
    + constructor; [exact IH|].
      destruct Hhd as [|z r' Hyz]; simpl.
      * constructor. destruct (compare_total x y); lia.
      * destruct (Z.leb_spec (compare x z) 0); constructor; [|done].
        destruct (compare_total x y); lia.
Qed.

Lemma Array_sort_sorted l :
  Sorted (fun a b => compare a b <= 0) (Array_sort compare l).
Proof.
  induction l as [|x l IH]; simpl; [constructor|].
  by apply sort_insert_sorted.
Qed.
End ArraySortFacts.

Lemma byDateDesc_sorted l : Sorted newer_first (Array_sort byDateDesc l).
Proof.
  eapply Sorted_ind with (P := Sorted newer_first);
    [constructor| |apply (Array_sort_sorted byDateDesc)].
  - intros a r _ IH Hhd. constructor; [exact IH|].
    destruct Hhd; constructor. unfold newer_first, byDateDesc in *. lia.
  - intros x y. unfold byDateDesc. lia.
Qed.

Lemma byDateDesc_strongly_sorted l :
  StronglySorted newer_first (Array_sort byDateDesc l).
Proof.
  apply Sorted_StronglySorted; [|apply byDateDesc_sorted].
  intros a b c. unfold newer_first. lia.
Qed.

(** The sort is stable: items with equal timestamps keep their order. *)
Lemma sort_insert_stable t x l :
  filter (fun y => publishedAt y = t) (sort_insert byDateDesc x l)
  = filter (fun y => publishedAt y = t) (x :: l).
Proof.
  induction l as [|y r IH]; cbn [sort_insert]; [done|].
  destruct (Z.leb_spec (byDateDesc x y) 0) as [Hle|Hgt]; [done|].
  rewrite (filter_cons _ y), IH, !(filter_cons _ x), (filter_cons _ y).
  unfold byDateDesc in Hgt.
  destruct (decide (publishedAt y = t)), (decide (publishedAt x = t)); try done. lia.
Qed.

Lemma Array_sort_stable t l :
  filter (fun y => publishedAt y = t) (Array_sort byDateDesc l)
  = filter (fun y => publishedAt y = t) l.
Proof.
  induction l as [|x l IH]; [done|]. cbn [Array_sort fold_right].
  fold (Array_sort byDateDesc l).
  by rewrite sort_insert_stable, !filter_cons, IH.
Qed.

(** The adjacent-pair reading of [Sorted]. *)
Lemma Sorted_adjacent {A} (R : A -> A -> Prop) (l : list A) :
  Sorted R l -> forall i a b, l !! i = Some a -> l !! S i = Some b -> R a b.
Proof.
  induction 1 as [|x r Hr IH Hhd]; intros i a b Ha Hb; [done|].
  destruct i as [|i]; simpl in *.
  - destruct Hhd; simplify_eq/=. done.
  - eauto.
Qed.

(** * The de-duplication loop *)

Lemma dedup_loop l seen unique :
  fold_left dedup_step l (seen, unique)
  = (list_to_set (link <$> l) ∪ seen, unique ++ keep_first seen l).
Proof.
  revert seen unique. induction l as [|x r IH]; intros seen unique; simpl.
  - f_equal; [set_solver|by rewrite app_nil_r].
  - unfold dedup_step at 2; simpl. destruct (decide (link x ∈ seen)) as [Hin|Hout].
    + rewrite IH. f_equal. set_solver.
    + rewrite IH, <- app_assoc. f_equal. set_solver.
Qed.

Lemma dedupByLink_keep_first l : dedupByLink l = keep_first ∅ l.
Proof. unfold dedupByLink. by rewrite dedup_loop. Qed.

Lemma keep_first_elem_of x seen l :
  x ∈ keep_first seen l -> x ∈ l /\ link x ∉ seen.
Proof.
  revert seen. induction l as [|y r IH]; intros seen; simpl; [by intros ?%elem_of_nil|].
  destruct (decide (link y ∈ seen)) as [Hin|Hout].
  - intros [? ?]%IH. split; [by right|done].
  - intros [->|[? ?]%IH]%elem_of_cons; [split; [by left|done]|].
    split; [by right|set_solver].
Qed.

Lemma keep_first_NoDup seen l : NoDup (link <$> keep_first seen l).
Proof.
  revert seen. induction l as [|y r IH]; intros seen; simpl; [constructor|].
  destruct (decide (link y ∈ seen)); [apply IH|].
  rewrite fmap_cons. constructor; [|apply IH].
  intros (z & Hz & [_ Hnot]%keep_first_elem_of)%list_elem_of_fmap.
  set_solver.
Qed.

(** Of the items that carry a given link, the loop keeps the first and
    only the first. *)
Lemma keep_first_with_link k seen l :
  with_link k (keep_first seen l)
  = if decide (k ∈ seen) then [] else take 1 (with_link k l).
Proof.
  unfold with_link. revert seen. induction l as [|y r IH]; intros seen.
  - simpl. by destruct (decide _).
  - cbn [keep_first]. rewrite (filter_cons _ y r).
    destruct (decide (link y ∈ seen)) as [Hin|Hout].
    + rewrite IH. destruct (decide (link y = k)) as [<-|Hne]; [|done].
      by rewrite !decide_True.
    + rewrite filter_cons, IH. destruct (decide (link y = k)) as [<-|Hne].
      * by rewrite decide_True, decide_False by set_solver.
      * destruct (decide (k ∈ seen)).
        -- by rewrite !decide_True by set_solver.
        -- by rewrite !decide_False by set_solver.
Qed.

Lemma dedupByLink_NoDup l : NoDup (link <$> dedupByLink l).
Proof. rewrite dedupByLink_keep_first. apply keep_first_NoDup. Qed.

Lemma dedupByLink_with_link k l :
  with_link k (dedupByLink l) = take 1 (with_link k l).
Proof.
  rewrite dedupByLink_keep_first, keep_first_with_link.
  by rewrite decide_False by set_solver.
Qed.

Lemma dedupByLink_elem_of x l : x ∈ dedupByLink l -> x ∈ l.
Proof. rewrite dedupByLink_keep_first. by intros [? _]%keep_first_elem_of. Qed.

(** Every link of the input survives. *)
Lemma dedupByLink_links k l :
  k ∈ (link <$> dedupByLink l) <-> k ∈ (link <$> l).
Proof.
  split.
  - intros (x & -> & Hx%dedupByLink_elem_of)%list_elem_of_fmap.
    apply list_elem_of_fmap. eauto.
  - intros (x & -> & Hx)%list_elem_of_fmap.
    assert (x ∈ with_link (link x) l) as Hw by (by apply list_elem_of_filter).
    pose proof (dedupByLink_with_link (link x) l) as Heq.
    destruct (with_link (link x) l) as [|z t] eqn:Hl; [by apply elem_of_nil in Hw|].
    simpl in Heq. rewrite take_0 in Heq.
    assert (z ∈ with_link (link x) (dedupByLink l)) as Hz by (rewrite Heq; by left).
    apply list_elem_of_filter in Hz as [Hlz Hz].
    apply list_elem_of_fmap. eauto.
Qed.

(** * The merge of the route *)

Lemma with_link_sort k l :
  with_link k (Array_sort byDateDesc (dedupByLink l)) = take 1 (with_link k l).
Proof.
  rewrite <- dedupByLink_with_link.
  assert (with_link k (Array_sort byDateDesc (dedupByLink l))
          ≡ₚ with_link k (dedupByLink l)) as Hp.
  { unfold with_link. by rewrite Array_sort_perm. }
  rewrite dedupByLink_with_link in *.
  destruct (with_link k l) as [|z t]; simpl in *.
  - by apply Permutation_nil_r.
  - rewrite take_0 in *. by apply Permutation_singleton_r.
Qed.

Lemma sort_dedup_NoDup l : NoDup (link <$> Array_sort byDateDesc (dedupByLink l)).
Proof. rewrite Array_sort_perm. apply dedupByLink_NoDup. Qed.

Lemma mergeSources_NoDup rssItems redditItems :
  NoDup (link <$> mergeSources rssItems redditItems).
Proof. apply sort_dedup_NoDup. Qed.

Lemma mergeSources_sorted rssItems redditItems :
  Sorted newer_first (mergeSources rssItems redditItems).
Proof. apply byDateDesc_sorted. Qed.

Lemma mergeSources_with_link k rssItems redditItems :
  with_link k (mergeSources rssItems redditItems)
  = take 1 (with_link k (rssItems ++ redditItems)).
Proof. apply with_link_sort. Qed.

(** * Running the fetchers *)

Lemma log_nil st : log [] st = st.
Proof. destruct st. unfold log. simpl. by rewrite app_nil_r. Qed.

Lemma log_app urls urls' st : log (urls ++ urls') st = log urls' (log urls st).
Proof. unfold log. simpl. by rewrite app_assoc. Qed.

Lemma fetchFeed_run w url n st :
  fetchFeed w url n st = Some (Ok (feedItems w url), log [url] st).
Proof.
  unfold fetchFeed, feedItems, try_catch, bind, log_request, lift, ret, log.
  destruct (parseURL w url) as [feed|e]; [|done].
  destruct (extractSource feed) as [source|e]; [|done].
  by destruct (collect _ _).
Qed.

Lemma fetchFeed_all_run w urls n st :
  Promise_all (fetchFeed w <$> urls) n st
  = Some (Ok (feedItems w <$> urls), log urls st).
Proof.
  revert st. induction urls as [|u us IH]; intros st.
  - by rewrite log_nil.
  - cbn [fmap list_fmap Promise_all]. rewrite fetchFeed_run, IH.
    by rewrite (log_app [u] us).
Qed.

Lemma getNews_hit w n st c :
  rss_cache st = Some c ->
  Date_now w RssCacheCheck < expiresAt c ->
  getNews w n st = Some (Ok (data c), st).
Proof.
  intros Hc Hlt. unfold getNews, bind, get_state, ret. rewrite Hc. simpl.
  by rewrite (proj2 (Z.ltb_lt _ _) Hlt).
Qed.

Lemma getNews_miss w n st :
  cache_valid (rss_cache st) (Date_now w RssCacheCheck) = false ->
  getNews w n st
  = Some (Ok (freshNews w RSS_FEED_URLS),
          mkState (Some (mkCacheEntry (freshNews w RSS_FEED_URLS)
                                      (Date_now w RssCacheStore + CACHE_TTL_MS)))
                  (reddit_cache st) (requests st ++ RSS_FEED_URLS)).
Proof.
  intros Hc. unfold getNews, bind at 1, get_state. rewrite Hc.
  unfold bind at 1. change (List.map (fetchFeed w) RSS_FEED_URLS)
    with (fetchFeed w <$> RSS_FEED_URLS).
  rewrite fetchFeed_all_run. reflexivity.
Qed.

(** [getNews] always settles, and always fulfils. *)
Lemma getNews_total w n st :
  exists items st', getNews w n st = Some (Ok items, st').
Proof.
  destruct (cache_valid (rss_cache st) (Date_now w RssCacheCheck)) eqn:Hc.
  - unfold cache_valid in Hc. destruct (rss_cache st) as [c|] eqn:Hst; [|done].
    apply Z.ltb_lt in Hc. eauto using getNews_hit.
  - eauto using getNews_miss.
Qed.

Lemma fetchJSON_follow w n url st :
  fetchJSON w url n st
  = match follow w n url with
    | Some (r, urls) => Some (r, log urls st)
    | None => None
    end.
Proof.
  unfold fetchJSON. revert url st. induction n as [|n IH]; intros url st; [done|].
  cbn [fetchJSON_fuel follow]. unfold redirect_target, final_answer.
  destruct (https_get w url) as [|statusCode [[|c l]|] body]; try done.
  - by destruct (statusCode =? 200).
  - destruct ((300 <=? statusCode) && (statusCode <? 400)).
    + rewrite IH. destruct (follow w n (c :: l)) as [[r urls]|]; [|done].
      by rewrite (log_app [url] urls).
    + by destruct (statusCode =? 200).
  - by destruct (statusCode =? 200).
Qed.

Lemma follow_mono w n n' url x :
  follow w n url = Some x -> (n <= n')%nat -> follow w n' url = Some x.
Proof.
  revert n' url x. induction n as [|n IH]; intros n' url x Hx Hle; [done|].
  destruct n' as [|n']; [lia|]. cbn [follow] in *.
  destruct (redirect_target w url) as [loc|]; [|done].
  destruct (follow w n loc) as [[r urls]|] eqn:Hf; [|done].
  by rewrite (IH n' loc _ Hf) by lia.
Qed.

(** The fetch settles exactly when the redirect chain ends. *)
Lemma follow_settles w url :
  redirects_end w url <-> exists n x, follow w n url = Some x.
Proof.
  split.
  - induction 1 as [url Hnone|url loc Hloc _ (n & [r urls] & Hn)].
    + exists 1%nat. eexists. cbn [follow]. by rewrite Hnone.
    + exists (S n). eexists. cbn [follow]. by rewrite Hloc, Hn.
  - intros (n & x & Hx). revert url x Hx.
    induction n as [|n IH]; intros url x Hx; [done|]. cbn [follow] in Hx.
    destruct (redirect_target w url) as [loc|] eqn:Hloc.
    + destruct (follow w n loc) as [[r urls]|] eqn:Hf; [|done].
      eapply redirects_end_next; eauto.
    + by apply redirects_end_here.
Qed.

Lemma fetchSubreddit_run w name n st :
  fetchSubreddit w name n st
  = match subredditItems w n name with
    | Some (items, urls) => Some (Ok items, log urls st)
    | None => None
    end.
Proof.
  unfold fetchSubreddit, subredditItems, try_catch, bind.
  rewrite fetchJSON_follow.
  destruct (follow w n (subreddit_url name)) as [[[[children|]|e] urls]|]; try done.
  unfold lift, ret. by destruct (collect normalisePost children).
Qed.

Lemma fetchSubreddit_all_run w names n st :
  Promise_all (fetchSubreddit w <$> names) n st
  = match redditFanout w n names with
    | Some (iss, urls) => Some (Ok iss, log urls st)
    | None => None
    end.
Proof.
  revert st. induction names as [|name rest IH]; intros st.
  - cbn. by rewrite log_nil.
  - cbn [fmap list_fmap Promise_all redditFanout]. rewrite fetchSubreddit_run.
    destruct (subredditItems w n name) as [[items urls]|]; [|done].
    rewrite IH. destruct (redditFanout w n rest) as [[iss urls']|]; [|done].
    by rewrite log_app.
Qed.

Lemma getRedditNews_hit w n st c :
  reddit_cache st = Some c ->
  Date_now w RedditCacheCheck < expiresAt c ->
  getRedditNews w n st = Some (Ok (data c), st).
Proof.
  intros Hc Hlt. unfold getRedditNews, bind, get_state, ret. rewrite Hc. simpl.
  by rewrite (proj2 (Z.ltb_lt _ _) Hlt).
Qed.

Lemma getRedditNews_miss w n st :
  cache_valid (reddit_cache st) (Date_now w RedditCacheCheck) = false ->
  getRedditNews w n st
  = match redditFanout w n SUBREDDITS with
    | Some (iss, urls) =>
        Some (Ok (concat iss),
              mkState (rss_cache st)
                      (Some (mkCacheEntry (concat iss)
                                          (Date_now w RedditCacheStore + CACHE_TTL_MS)))
                      (requests st ++ urls))
    | None => None
    end.
Proof.
  intros Hc. unfold getRedditNews, bind at 1, get_state. rewrite Hc.
  unfold bind at 1. change (List.map (fetchSubreddit w) SUBREDDITS)
    with (fetchSubreddit w <$> SUBREDDITS).
  rewrite fetchSubreddit_all_run.
  by destruct (redditFanout w n SUBREDDITS) as [[iss urls]|].
Qed.

(** [getRedditNews] never rejects. *)
Lemma getRedditNews_fulfils w n st r st' :
  getRedditNews w n st = Some (r, st') -> exists items, r = Ok items.
Proof.
  destruct (cache_valid (reddit_cache st) (Date_now w RedditCacheCheck)) eqn:Hc.
  - unfold cache_valid in Hc. destruct (reddit_cache st) as [c|] eqn:Hst; [|done].
    apply Z.ltb_lt in Hc. rewrite (getRedditNews_hit _ _ _ c) by done.
    intros [= <- <-]. eauto.
  - rewrite getRedditNews_miss by done.
    destruct (redditFanout w n SUBREDDITS) as [[iss urls]|]; [|done].
    intros [= <- <-]. eauto.
Qed.

Lemma subredditItems_settles w name :
  redirects_end w (subreddit_url name) -> exists n x, subredditItems w n name = Some x.
Proof.
  intros (n & [r urls] & Hn)%follow_settles. exists n.
  unfold subredditItems. rewrite Hn. eauto.
Qed.

Lemma subredditItems_mono w n n' name x :
  subredditItems w n name = Some x -> (n <= n')%nat -> subredditItems w n' name = Some x.
Proof.
  unfold subredditItems. intros Hx Hle.
  destruct (follow w n (subreddit_url name)) as [y|] eqn:Hf; [|done].
  by rewrite (follow_mono _ _ _ _ _ Hf Hle).
Qed.

Lemma redditFanout_mono w n n' names x :
  redditFanout w n names = Some x -> (n <= n')%nat -> redditFanout w n' names = Some x.
Proof.
  revert x. induction names as [|name rest IH]; intros x Hx Hle; [done|].
  cbn [redditFanout] in *.
  destruct (subredditItems w n name) as [[items urls]|] eqn:Hs; [|done].
  rewrite (subredditItems_mono _ _ _ _ _ Hs Hle).
  destruct (redditFanout w n rest) as [[iss urls']|] eqn:Hr; [|done].
  by rewrite (IH _ eq_refl Hle).
Qed.

Lemma redditFanout_settles w names :
  (forall name, name ∈ names -> redirects_end w (subreddit_url name)) ->
  exists n x, redditFanout w n names = Some x.
Proof.
  induction names as [|name rest IH]; intros Hall.
  - exists 0%nat. by eexists.
  - destruct IH as (n1 & [iss urls'] & Hr); [intros; apply Hall; by right|].
    destruct (subredditItems_settles w name) as (n2 & [items urls] & Hs);
      [apply Hall; by left|].
    exists (n1 `max` n2)%nat. eexists. cbn [redditFanout].
    rewrite (subredditItems_mono _ _ (n1 `max` n2)%nat _ _ Hs) by lia.
    by rewrite (redditFanout_mono _ _ (n1 `max` n2)%nat _ _ Hr) by lia.
Qed.

Lemma getRedditNews_settles w st :
  (forall name, name ∈ SUBREDDITS -> redirects_end w (subreddit_url name)) ->
  exists n items st', getRedditNews w n st = Some (Ok items, st').
Proof.
  intros (n & [iss urls] & Hr)%redditFanout_settles. exists n.
  destruct (cache_valid (reddit_cache st) (Date_now w RedditCacheCheck)) eqn:Hc.
  - unfold cache_valid in Hc. destruct (reddit_cache st) as [c|] eqn:Hst; [|done].
    apply Z.ltb_lt in Hc. eauto using getRedditNews_hit.
  - rewrite getRedditNews_miss, Hr by done. eauto.
Qed.

(** * Running the route *)

Lemma GET_run w n st rssItems st1 r st2 :
  getNews w n st = Some (Ok rssItems, st1) ->
  getRedditNews w n st1 = Some (r, st2) ->
  exists redditItems,
    r = Ok redditItems /\
    GET w n st
    = Some (Ok (Json200 (List.length (mergeSources rssItems redditItems))
                        (mergeSources rssItems redditItems)), st2).
Proof.
  intros Hrss Hreddit.
  destruct (getRedditNews_fulfils _ _ _ _ _ Hreddit) as [redditItems ->].
  exists redditItems. split; [done|].
  unfold GET, try_catch, bind. cbn [Promise_all]. by rewrite Hrss, Hreddit.
Qed.

Lemma GET_inv w n st r st' :
  GET w n st = Some (r, st') ->
  exists rssItems st1 redditItems,
    getNews w n st = Some (Ok rssItems, st1) /\
    getRedditNews w n st1 = Some (Ok redditItems, st') /\
    r = Ok (Json200 (List.length (mergeSources rssItems redditItems))
                    (mergeSources rssItems redditItems)).
Proof.
  destruct (getNews_total w n st) as (rssItems & st1 & Hrss).
  destruct (getRedditNews w n st1) as [[r2 st2]|] eqn:Hreddit.
  - destruct (GET_run _ _ _ _ _ _ _ Hrss Hreddit) as (redditItems & -> & ->).
    intros [= <- <-]. eauto 10.
  - unfold GET, try_catch, bind. cbn [Promise_all]. by rewrite Hrss, Hreddit.
Qed.

(** [getNews] uses no fuel. *)
Lemma getNews_fuel w n n' st : getNews w n st = getNews w n' st.
Proof.
  destruct (cache_valid (rss_cache st) (Date_now w RssCacheCheck)) eqn:Hc.
  - unfold cache_valid in Hc. destruct (rss_cache st) as [c|] eqn:Hst; [|done].
    apply Z.ltb_lt in Hc. by rewrite !(getNews_hit _ _ _ c).
  - by rewrite !getNews_miss.
Qed.

(** The route answers whenever the Reddit redirect chains end, and it then
    answers 200. *)
Lemma GET_settles w st :
  (forall name, name ∈ SUBREDDITS -> redirects_end w (subreddit_url name)) ->
  exists n count items st', GET w n st = Some (Ok (Json200 count items), st').
Proof.
  intros Hend.
  destruct (getNews_total w O st) as (rss & st1 & Hrss).
  destruct (getRedditNews_settles w st1 Hend) as (n & reddit & st2 & Hr).
  rewrite (getNews_fuel _ _ n) in Hrss.
  destruct (GET_run _ _ _ _ _ _ _ Hrss Hr) as (reddit' & _ & HGET).
  eauto 10.
Qed.

(** * The claims about the aggregate *)

(** C2.  Whatever the two sources return, and so for every answer of the news
    GET endpoint, no two items of the returned sequence carry the same
    [link]: the endpoint answers 200 with a sequence in which two different
    positions never hold the same link. *)
Theorem GET_links_unique w n st out :
  GET w n st = Some out ->
  exists count items,
    out.1 = Ok (Json200 count items) /\
    NoDup (link <$> items) /\
    (forall i j a b,
        items !! i = Some a -> items !! j = Some b -> link a = link b -> i = j).
Proof.
  destruct out as [r st']. intros (rss & st1 & reddit & _ & _ & ->)%GET_inv.
  eexists _, _. split; [done|].
  pose proof (mergeSources_NoDup rss reddit) as Hnd. split; [done|].
  intros i j a b Ha Hb Hab.
  eapply NoDup_lookup; [exact Hnd| |].
  - by rewrite list_lookup_fmap, Ha.
  - by rewrite list_lookup_fmap, Hb, Hab.
Qed.

Lemma GET_links_unique_witness :
  GET sample_world 2%nat initial_state = Some sample_out /\
  exists count items,
    sample_out.1 = Ok (Json200 count items) /\
    NoDup (link <$> items) /\
    (forall i j a b,
        items !! i = Some a -> items !! j = Some b -> link a = link b -> i = j).
Proof.
  split; [vm_compute; reflexivity|].
  apply (GET_links_unique sample_world 2%nat initial_state sample_out).
  vm_compute; reflexivity.
Defined.

(** C3.  Every answer of the news GET endpoint is sorted by [publishedAt],
    most recent first: [items[i].publishedAt >= items[i+1].publishedAt] for
    every adjacent pair of the returned sequence. *)
Theorem GET_sorted_by_date w n st out :
  GET w n st = Some out ->
  exists count items,
    out.1 = Ok (Json200 count items) /\
    (forall i a b,
        items !! i = Some a -> items !! S i = Some b ->
        publishedAt a >= publishedAt b).
Proof.
  destruct out as [r st']. intros (rss & st1 & reddit & _ & _ & ->)%GET_inv.
  eexists _, _. split; [done|].
  intros i a b. apply (Sorted_adjacent newer_first), mergeSources_sorted.
Qed.

Lemma GET_sorted_by_date_witness :
  GET sample_world 2%nat initial_state = Some sample_out /\
  exists count items,
    sample_out.1 = Ok (Json200 count items) /\
    (forall i a b,
        items !! i = Some a -> items !! S i = Some b ->
        publishedAt a >= publishedAt b).
Proof.
  split; [vm_compute; reflexivity|].
  apply (GET_sorted_by_date sample_world 2%nat initial_state sample_out).
  vm_compute; reflexivity.
Defined.

(** C5.  When an RSS item [x] (the first of the RSS result with its link) and
    a Reddit item [y] carry the same [link] under different [source] labels,
    the merged aggregate holds exactly one item with that link, and it is
    [x], the first occurrence in concatenation order (RSS before Reddit): the
    copy kept is the one of the source that comes first, [y] is dropped.
    More generally the items kept for any link [k] are the first item of
    [rssItems ++ redditItems] that carries [k], and within the RSS source
    the first item, in the order of the feed list, that carries [k]. *)
Theorem merge_keeps_first_source rssItems redditItems before x after y :
  rssItems = before ++ x :: after ->
  (forall z, z ∈ before -> link z <> link x) ->
  y ∈ redditItems ->
  link y = link x ->
  source y <> source x ->
  with_link (link x) (mergeSources rssItems redditItems) = [x] /\
  x ∈ mergeSources rssItems redditItems /\
  (y ∉ mergeSources rssItems redditItems) /\
  (forall k, with_link k (mergeSources rssItems redditItems)
             = take 1 (with_link k (rssItems ++ redditItems))) /\
  (forall w urls k, with_link k (freshNews w urls)
                    = take 1 (with_link k (concat (feedItems w <$> urls)))).
Proof.
  intros -> Hfirst Hy Hlink Hsource.
  assert (with_link (link x) (mergeSources (before ++ x :: after) redditItems) = [x])
    as Hx.
  { rewrite mergeSources_with_link. unfold with_link.
    rewrite <- app_assoc, <- app_comm_cons, filter_app, (filter_cons _ x), decide_True by done.
    replace (filter (λ y0 : NewsItem, link y0 = link x) before) with (@nil NewsItem).
    - simpl. by rewrite take_0.
    - symmetry. induction before as [|b r IH]; [done|].
      rewrite filter_cons, decide_False by (apply Hfirst; by left).
      apply IH. intros z Hz. apply Hfirst. by right. }
  split; [done|]. split; [|split].
  - assert (x ∈ with_link (link x) (mergeSources (before ++ x :: after) redditItems))
      as Hin by (rewrite Hx; by left).
    by apply list_elem_of_filter in Hin as [_ ?].
  - intros Hin.
    assert (y ∈ with_link (link x) (mergeSources (before ++ x :: after) redditItems))
      as Hin' by (by apply list_elem_of_filter).
    rewrite Hx in Hin'. apply list_elem_of_singleton in Hin'. by subst.
  - split; [intros k; apply mergeSources_with_link|].
    intros w urls k. apply with_link_sort.
Qed.

Lemma merge_keeps_first_source_witness :
  with_link story_a
    (mergeSources [sample_rss_item] [sample_reddit_item]) = [sample_rss_item].
Proof.
  refine (proj1 (merge_keeps_first_source [sample_rss_item] [sample_reddit_item]
                   [] sample_rss_item [] sample_reddit_item _ _ _ _ _)).
  - reflexivity.
  - intros z Hz. by apply elem_of_nil in Hz.
  - by left.
  - reflexivity.
  - discriminate.
Defined.

(** * The summary clip *)

Lemma clip_long s :
  (500 < JS.length s)%nat ->
  clip s = JS.slice0 497 s ++ JS.ellipsis /\ JS.length (clip s) = 498%nat.
Proof.
  intros Hlen. unfold clip. rewrite (proj2 (Nat.ltb_lt _ _) Hlen).
  split; [done|]. unfold JS.length, JS.slice0, JS.ellipsis in *.
  rewrite length_app, length_firstn. simpl List.length. lia.
Qed.

Lemma clip_short s : (JS.length s <= 500)%nat -> clip s = s.
Proof.
  intros Hlen. unfold clip.
  by rewrite (proj2 (Nat.ltb_ge _ _) Hlen).
Qed.

Lemma normaliseItem_summary now item source n :
  normaliseItem now item source = Ok (Some n) ->
  summary n = clip (item_summary item).
Proof.
  unfold normaliseItem. destruct (trimmed_or (item_link item) []); [done|].
  destruct (match item_isoDate item with Some d => _ | None => _ end); [|done].
  by intros [= <-].
Qed.

Lemma normalisePost_summary post n :
  normalisePost post = Ok (Some n) ->
  summary n = clip (post_cleaned post).
Proof.
  unfold normalisePost. destruct (_ || _); [done|].
  destruct (if post_is_self post then _ else _) as [[|c l]|]; try done.
  destruct (Date.toISOString _); [|done].
  intros [= <-]. simpl. unfold post_cleaned.
  by destruct (post_selftext post).
Qed.

(** C4, as the code has it.  When the summary text a normaliser has prepared
    (the trimmed snippet or tag-stripped content of an RSS entry, the cleaned
    self text of a Reddit post) is longer than 500 characters, the stored
    [summary] is its first 497 characters followed by the one-character
    ellipsis U+2026, 498 characters in all; a text of at most 500 characters
    is stored unchanged. *)
Theorem summary_clip n s :
  (exists now item source,
      normaliseItem now item source = Ok (Some n) /\ s = item_summary item) \/
  (exists post, normalisePost post = Ok (Some n) /\ s = post_cleaned post) ->
  ((500 < JS.length s)%nat ->
     summary n = JS.slice0 497 s ++ JS.ellipsis /\
     JS.length (summary n) = 498%nat /\
     last (summary n) = Some 0x2026) /\
  ((JS.length s <= 500)%nat -> summary n = s).
Proof.
  intros H.
  assert (summary n = clip s) as ->.
  { destruct H as [(now & item & source & Hn & ->)|(post & Hn & ->)];
      eauto using normaliseItem_summary, normalisePost_summary. }
  split.
  - intros Hlen. destruct (clip_long s Hlen) as [Heq Hl]. split; [done|].
    split; [done|]. rewrite Heq. unfold JS.ellipsis. apply last_snoc.
  - apply clip_short.
Qed.

Lemma summary_clip_witness :
  summary long_entry_item = JS.slice0 497 long_text ++ JS.ellipsis /\
  JS.length (summary long_entry_item) = 498%nat /\
  last (summary long_entry_item) = Some 0x2026.
Proof.
  refine (proj1 (summary_clip long_entry_item long_text _) _).
  - left. exists 0, long_entry, (JS.lit "NYT"). split; vm_compute; reflexivity.
  - vm_compute. lia.
Defined.

(** C4, as the claim states it, fails: a summary text of 501 characters is
    stored with 498 characters, not 500, by both normalisers. *)
Lemma summary_clip_is_not_500 :
  (500 < JS.length (item_summary long_entry))%nat /\
  JS.length <$> stored_summary (normaliseItem 0 long_entry (JS.lit "NYT")) = Some 498%nat /\
  JS.length <$> stored_summary (normaliseItem 0 long_entry (JS.lit "NYT")) <> Some 500%nat /\
  (500 < JS.length (post_cleaned long_post))%nat /\
  JS.length <$> stored_summary (normalisePost long_post) = Some 498%nat /\
  JS.length <$> stored_summary (normalisePost long_post) <> Some 500%nat.
Proof.
  assert (JS.length (item_summary long_entry) = 501%nat) as H1 by (vm_compute; reflexivity).
  assert (JS.length (post_cleaned long_post) = 501%nat) as H2 by (vm_compute; reflexivity).
  assert (JS.length <$> stored_summary (normaliseItem 0 long_entry (JS.lit "NYT"))
          = Some 498%nat) as H3 by (vm_compute; reflexivity).
  assert (JS.length <$> stored_summary (normalisePost long_post) = Some 498%nat)
    as H4 by (vm_compute; reflexivity).
  rewrite H1, H2, H3, H4. repeat split; (lia || discriminate).
Qed.

(** * The identifier *)

Lemma hex_digit_in n : SHA256.hex_digit n ∈ hex_digits.
Proof.
  unfold SHA256.hex_digit, hex_digits.
  pose proof (Z.mod_pos_bound n 16 eq_refl) as Hd.
  assert (In (n mod 16) [0;1;2;3;4;5;6;7;8;9;10;11;12;13;14;15]) as Hin.
  { simpl. lia. }
  apply list_elem_of_In. simpl in Hin |- *.
  repeat (destruct Hin as [<-|Hin]; [simpl; tauto|]). done.
Qed.

Lemma hex_length bs : List.length (SHA256.hex bs) = (2 * List.length bs)%nat.
Proof.
  unfold SHA256.hex. induction bs as [|b r IH]; [done|].
  cbn [flat_map List.length app]. rewrite IH. lia.
Qed.

Lemma hex_digits_only bs : Forall (fun c => c ∈ hex_digits) (SHA256.hex bs).
Proof.
  unfold SHA256.hex. induction bs as [|b r IH]; [constructor|].
  cbn [flat_map app].
  constructor; [apply hex_digit_in|]. constructor; [apply hex_digit_in|]. exact IH.
Qed.

Lemma digest_length msg : List.length (SHA256.digest msg) = 32%nat.
Proof.
  unfold SHA256.digest.
  by generalize (fold_left SHA256.compress
                   (SHA256.blocks (List.length (SHA256.pad msg)) (SHA256.pad msg))
                   SHA256.H0).
Qed.

Lemma makeId_length l : JS.length (makeId l) = 16%nat.
Proof.
  unfold makeId, JS.length, JS.slice0.
  rewrite length_firstn, hex_length, digest_length. done.
Qed.

Lemma makeId_hex l : Forall (fun c => c ∈ hex_digits) (makeId l).
Proof.
  unfold makeId, JS.slice0. apply Forall_take, hex_digits_only.
Qed.

Lemma hex_words_complete k (s : JS.string) :
  List.length s = k -> Forall (fun c => c ∈ hex_digits) s -> s ∈ hex_words k.
Proof.
  revert s. induction k as [|k IH]; intros [|c s] Hlen Hall; try done.
  - by left.
  - apply Forall_cons in Hall as [Hc Hs]. cbn [hex_words].
    apply list_elem_of_bind. exists c. split; [|done].
    apply list_elem_of_fmap. exists s. split; [done|].
    apply IH; [by injection Hlen|done].
Qed.

Lemma makeId_in_words l : makeId l ∈ hex_words 16.
Proof. apply hex_words_complete; [apply makeId_length|apply makeId_hex]. Qed.

Lemma example_link_inj m n : example_link m = example_link n -> m = n.
Proof.
  unfold example_link. intros H%(f_equal (@List.length Z)).
  rewrite !length_app, !repeat_length in H. lia.
Qed.

(** Any function from links into a finite set of ids sends two of the
    [example_link]s to one id. *)
Lemma ids_collide (f : JS.string -> JS.string) (ids : list JS.string) :
  (forall l, f l ∈ ids) ->
  exists m n, m <> n /\ f (example_link m) = f (example_link n).
Proof.
  intros Hin.
  destruct (list_pigeonhole
              ((fun n => f (example_link n)) <$> seq 0 (S (List.length ids))) ids)
    as (i1 & i2 & x & Hlt & H1 & H2).
  - intros y (n & -> & _)%list_elem_of_fmap. apply Hin.
  - rewrite length_fmap, length_seq. lia.
  - rewrite list_lookup_fmap in H1, H2.
    destruct (seq 0 (S (List.length ids)) !! i1) as [m|] eqn:Hm; [|done].
    destruct (seq 0 (S (List.length ids)) !! i2) as [n|] eqn:Hn; [|done].
    apply lookup_seq in Hm as [-> _]. apply lookup_seq in Hn as [-> _].
    exists i1, i2. split; [lia|]. simpl in *. congruence.
Qed.




(** Two strings that differ only in an unpaired surrogate have the same
    UTF-8 encoding, hence the same id. *)
Example makeId_lone_surrogates :
  [0xD800] <> [0xD801] /\ makeId [0xD800] = makeId [0xD801].
Proof. split; [discriminate|reflexivity]. Qed.

(** * The Reddit normaliser *)

Lemma normalisePost_dropped post :
  post_stickied post = true \/ trimmed_or (post_title post) [] = [] ->
  normalisePost post = Ok None.
Proof.
  unfold normalisePost. intros [->| ->]; [done|]. simpl.
  by rewrite orb_true_r.
Qed.

Lemma normalisePost_link post n :
  normalisePost post = Ok (Some n) ->
  post_stickied post = false /\
  title n = trimmed_or (post_title post) [] /\ title n <> [] /\
  (if post_is_self post
   then link n = JS.lit "https://www.reddit.com" ++ post_permalink post
   else post_url post = Some (link n) /\ link n <> []).
Proof.
  unfold normalisePost. destruct (post_stickied post); [done|]. simpl.
  destruct (trimmed_or (post_title post) []) as [|c t] eqn:Ht; [done|]. simpl.
  destruct (post_is_self post).
  - cbn [app]. destruct (Date.toISOString _); [|done]. by intros [= <-].
  - destruct (post_url post) as [[|d u]|]; try done.
    destruct (Date.toISOString _); [|done]. by intros [= <-].
Qed.

Lemma normalisePost_link_post_without_url post :
  post_is_self post = false ->
  post_url post = None \/ post_url post = Some [] ->
  normalisePost post = Ok None.
Proof.
  unfold normalisePost. intros -> [-> | ->]; by destruct (_ || _).
Qed.

(** C8 at the input where it fails.  A self post whose permalink is empty
    and that has no URL has no link of either kind, and yet [normalisePost]
    keeps it, with the bare site root as its link: for a self post the link
    is the prefix followed by the permalink, which is never the empty string
    that the guard [if (!link) return null] looks for. *)
Theorem normalisePost_keeps_rootless_post :
  post_url rootless_post = None /\
  post_permalink rootless_post = [] /\
  stored_link (normalisePost rootless_post) = Some (JS.lit "https://www.reddit.com") /\
  normalisePost rootless_post <> Ok None.
Proof.
  assert (stored_link (normalisePost rootless_post)
          = Some (JS.lit "https://www.reddit.com")) as H by (vm_compute; reflexivity).
  split; [reflexivity|]. split; [reflexivity|]. split; [exact H|].
  intros Hnone. rewrite Hnone in H. discriminate H.
Qed.

(** * Failure isolation *)

Lemma feedItems_failed w url e : parseURL w url = Throw e -> feedItems w url = [].
Proof. unfold feedItems. by intros ->. Qed.

Lemma fetchSubreddit_fulfils w name n st out :
  fetchSubreddit w name n st = Some out -> exists items, out.1 = Ok items.
Proof.
  rewrite fetchSubreddit_run.
  destruct (subredditItems w n name) as [[items urls]|]; [|done].
  intros [= <-]. eauto.
Qed.

Lemma subredditItems_failed w n name e urls :
  follow w n (subreddit_url name) = Some (Throw e, urls) ->
  subredditItems w n name = Some ([], urls).
Proof. unfold subredditItems. by intros ->. Qed.

Lemma concat_without_failed w (failed urls : list JS.string) :
  (forall url, url ∈ failed -> feedItems w url = []) ->
  concat (feedItems w <$> urls)
  = concat (feedItems w <$> filter (fun url => url ∉ failed) urls).
Proof.
  intros Hfailed. induction urls as [|u us IH]; [done|].
  rewrite filter_cons. destruct (decide (u ∉ failed)) as [Hout|Hin].
  - cbn [fmap list_fmap concat]. by rewrite IH.
  - cbn [fmap list_fmap concat]. rewrite IH, Hfailed; [done|].
    by apply dec_stable.
Qed.

Lemma freshNews_without_failed w (failed urls : list JS.string) :
  (forall url, url ∈ failed -> feedItems w url = []) ->
  freshNews w urls = freshNews w (filter (fun url => url ∉ failed) urls).
Proof. intros H. unfold freshNews. by rewrite (concat_without_failed w failed). Qed.

Lemma elem_of_concat {A} (x : A) (ls : list (list A)) :
  x ∈ concat ls <-> exists l, x ∈ l /\ l ∈ ls.
Proof.
  rewrite list_elem_of_In, in_concat. split.
  - intros (l & Hl & Hx). exists l. by rewrite !list_elem_of_In.
  - intros (l & Hx & Hl). exists l. by rewrite <- !list_elem_of_In.
Qed.

Lemma freshNews_links w urls url x :
  url ∈ urls -> x ∈ feedItems w url -> link x ∈ (link <$> freshNews w urls).
Proof.
  intros Hurl Hx. unfold freshNews. rewrite Array_sort_perm.
  apply dedupByLink_links, list_elem_of_fmap. exists x. split; [done|].
  apply elem_of_concat. exists (feedItems w url). split; [done|].
  apply list_elem_of_fmap. eauto.
Qed.

Lemma freshNews_from_feeds w urls x :
  x ∈ freshNews w urls -> exists url, url ∈ urls /\ x ∈ feedItems w url.
Proof.
  unfold freshNews. rewrite Array_sort_elem_of.
  intros (l & Hx & (url & -> & Hurl)%list_elem_of_fmap)%dedupByLink_elem_of%elem_of_concat.
  eauto.
Qed.

Lemma mergeSources_links k rssItems redditItems :
  k ∈ (link <$> mergeSources rssItems redditItems)
  <-> k ∈ (link <$> rssItems) \/ k ∈ (link <$> redditItems).
Proof.
  unfold mergeSources. rewrite Array_sort_perm, dedupByLink_links, fmap_app.
  apply elem_of_app.
Qed.


Lemma sample_world_redirects_end name :
  name ∈ SUBREDDITS -> redirects_end sample_world (subreddit_url name).
Proof.
  intros Hname. apply follow_settles. exists 2%nat.
  repeat (apply elem_of_cons in Hname as [->|Hname];
          [eexists; vm_compute; reflexivity|]).
  by apply elem_of_nil in Hname.
Qed.


(** * The per-source caches *)

Lemma CACHE_TTL_MS_five_minutes : CACHE_TTL_MS = 300000.
Proof. reflexivity. Qed.

Lemma redditFanout_requests w n names iss urls :
  redditFanout w n names = Some (iss, urls) ->
  forall name, name ∈ names -> subreddit_url name ∈ urls.
Proof.
  revert iss urls. induction names as [|name0 rest IH]; intros iss urls Hf name Hname.
  - by apply elem_of_nil in Hname.
  - cbn [redditFanout] in Hf. unfold subredditItems in Hf.
    destruct (follow w n (subreddit_url name0)) as [[r urls0]|] eqn:Hfollow; [|done].
    destruct (redditFanout w n rest) as [[iss' urls']|] eqn:Hrest; [|done].
    injection Hf as <- <-. apply elem_of_app.
    apply elem_of_cons in Hname as [->|Hname].
    + left. destruct n as [|n]; [done|]. cbn [follow] in Hfollow.
      destruct (redirect_target w (subreddit_url name0)).
      * destruct (follow w n _) as [[? ?]|]; [|done].
        injection Hfollow as _ <-. by left.
      * injection Hfollow as _ <-. by left.
    + right. eauto.
Qed.



(** * The redirects of [fetchJSON] *)

Lemma follow_chain stop j url :
  (List.length url + j = stop)%nat ->
  follow (chain_world stop) (S j) url = Some (Ok (Some []), hops j url) /\
  follow (chain_world stop) j url = None.
Proof.
  revert url. induction j as [|j IH]; intros url Hlen.
  - split; [|done]. cbn [follow hops]. unfold redirect_target, final_answer.
    cbn [chain_world https_get].
    by rewrite (proj2 (Nat.ltb_ge _ _)) by lia.
  - destruct (IH (0x61 :: url)) as [Hdone Hnot]; [simpl; lia|].
    assert (redirect_target (chain_world stop) url = Some (0x61 :: url)) as Hre.
    { unfold redirect_target. cbn [chain_world https_get].
      by rewrite (proj2 (Nat.ltb_lt _ _)) by lia. }
    split.
    + change (follow (chain_world stop) (S (S j)) url)
        with (match redirect_target (chain_world stop) url with
              | Some loc =>
                  match follow (chain_world stop) (S j) loc with
                  | Some (r, urls) => Some (r, url :: urls)
                  | None => None
                  end
              | None => Some (final_answer (chain_world stop) url, [url])
              end).
      by rewrite Hre, Hdone.
    + cbn [follow]. by rewrite Hre, Hnot.
Qed.

Lemma hops_length j url : List.length (hops j url) = S j.
Proof. revert url. induction j as [|j IH]; intros url; simpl; [done|by rewrite IH]. Qed.

Lemma follow_loop n c l : follow loop_world n (c :: l) = None.
Proof.
  induction n as [|n IH]; [done|]. cbn [follow].
  unfold redirect_target. cbn [loop_world https_get]. cbn. by rewrite IH.
Qed.



(** With a cold cache, [getRedditNews] never settles on the upstream that
    redirects to itself. *)
Lemma getRedditNews_hangs n st :
  cache_valid (reddit_cache st) (Date_now loop_world RedditCacheCheck) = false ->
  getRedditNews loop_world n st = None.
Proof.
  intros Hc. rewrite getRedditNews_miss by done.
  assert (follow loop_world n (subreddit_url (JS.lit "worldnews")) = None) as Hloop
    by apply follow_loop.
  unfold SUBREDDITS. cbn [redditFanout]. unfold subredditItems at 1.
  by rewrite Hloop.
Qed.

(** * What each source hands to the aggregator *)

Lemma freshNews_deduplicated_and_sorted w urls :
  deduplicated_and_sorted (freshNews w urls).
Proof. split; [apply sort_dedup_NoDup|apply byDateDesc_sorted]. Qed.

Lemma getNews_inv w n st r st' :
  getNews w n st = Some (r, st') ->
  (exists c, rss_cache st = Some c /\ r = Ok (data c) /\ st' = st) \/
  (r = Ok (freshNews w RSS_FEED_URLS) /\
   rss_cache st' = Some (mkCacheEntry (freshNews w RSS_FEED_URLS)
                                      (Date_now w RssCacheStore + CACHE_TTL_MS))).
Proof.
  destruct (cache_valid (rss_cache st) (Date_now w RssCacheCheck)) eqn:Hc.
  - unfold cache_valid in Hc. destruct (rss_cache st) as [c|] eqn:Hst; [|done].
    apply Z.ltb_lt in Hc. rewrite (getNews_hit _ _ _ c) by done.
    intros [= <- <-]. left. eauto.
  - rewrite getNews_miss by done. intros [= <- <-]. by right.
Qed.

Lemma getRedditNews_rss_cache w n st r st' :
  getRedditNews w n st = Some (r, st') -> rss_cache st' = rss_cache st.
Proof.
  destruct (cache_valid (reddit_cache st) (Date_now w RedditCacheCheck)) eqn:Hc.
  - unfold cache_valid in Hc. destruct (reddit_cache st) as [c|] eqn:Hst; [|done].
    apply Z.ltb_lt in Hc. rewrite (getRedditNews_hit _ _ _ c) by done.
    by intros [= <- <-].
  - rewrite getRedditNews_miss by done.
    destruct (redditFanout w n SUBREDDITS) as [[iss urls]|]; [|done].
    by intros [= <- <-].
Qed.

Lemma getNews_keeps_cache_ok w n st r st' :
  (forall c, rss_cache st = Some c -> deduplicated_and_sorted (data c)) ->
  getNews w n st = Some (r, st') ->
  forall c, rss_cache st' = Some c -> deduplicated_and_sorted (data c).
Proof.
  intros Hok [(c0 & Hc0 & _ & ->)|[_ Hst']]%getNews_inv c Hc; [eauto|].
  rewrite Hst' in Hc. injection Hc as <-. apply freshNews_deduplicated_and_sorted.
Qed.

Lemma reachable_rss_cache st :
  reachable st ->
  forall c, rss_cache st = Some c -> deduplicated_and_sorted (data c).
Proof.
  induction 1 as [|w n st r st' _ IH Hrun|w n st r st' _ IH Hrun|w n st r st' _ IH Hrun].
  - done.
  - by eapply getNews_keeps_cache_ok.
  - by rewrite (getRedditNews_rss_cache _ _ _ _ _ Hrun).
  - apply GET_inv in Hrun as (rss & st1 & reddit & Hrss & Hreddit & _).
    rewrite (getRedditNews_rss_cache _ _ _ _ _ Hreddit).
    by eapply getNews_keeps_cache_ok.
Qed.



(** * Further properties of the fetchers and of the route *)

Lemma clip_cap s : (JS.length (clip s) <= 500)%nat.
Proof.
  destruct (Nat.le_gt_cases (JS.length s) 500) as [Hle|Hgt].
  - by rewrite clip_short.
  - destruct (clip_long s Hgt) as [_ ->]. lia.
Qed.

Lemma trimmed_or_nonempty o d : d <> [] -> trimmed_or o d <> [].
Proof.
  intros Hd. unfold trimmed_or, JS.or_else. destruct o as [s|]; [|done].
  by destruct (JS.trim s).
Qed.

Lemma normaliseItem_inv now item src x :
  normaliseItem now item src = Ok (Some x) ->
  link x = trimmed_or (item_link item) [] /\
  title x = trimmed_or (item_title item) (JS.lit "(no title)") /\
  id x = makeId (link x) /\
  source x = src /\
  summary x = clip (item_summary item) /\
  match item_isoDate item with
  | Some d => d = Some (publishedAt x)
  | None => publishedAt x = now
  end.
Proof.
  unfold normaliseItem.
  destruct (trimmed_or (item_link item) []) as [|c l] eqn:Hl; [done|].
  destruct (item_isoDate item) as [[t|]|]; try done; by intros [= <-].
Qed.

Lemma normaliseItem_well_formed now item src x :
  normaliseItem now item src = Ok (Some x) ->
  link x = trimmed_or (item_link item) [] /\ well_formed x.
Proof.
  intros Hx. destruct (normaliseItem_inv _ _ _ _ Hx) as (Hl & Ht & Hi & _ & Hs & _).
  split; [done|]. split; [done|].
  unfold normaliseItem in Hx. rewrite <- Hl in Hx.
  split; [by destruct (link x)|]. split.
  - rewrite Ht. by apply trimmed_or_nonempty.
  - rewrite Hs. apply clip_cap.
Qed.



Lemma normalisePost_well_formed post x :
  normalisePost post = Ok (Some x) -> well_formed x.
Proof.
  intros Hx. pose proof (normalisePost_summary _ _ Hx) as Hs.
  pose proof (normalisePost_link _ _ Hx) as (_ & _ & Ht & Hl).
  assert (id x = makeId (link x) /\ link x <> []) as [Hi Hne].
  { clear Hs Ht Hl. unfold normalisePost in Hx. destruct (_ || _); [done|].
    destruct (if post_is_self post then _ else _) as [[|c l]|]; try done.
    destruct (Date.toISOString _); [|done]. by injection Hx as <-. }
  split; [done|]. split; [done|]. split; [done|].
  rewrite Hs. apply clip_cap.
Qed.

Lemma collect_Forall {A} (P : NewsItem -> Prop) (f : A -> res (option NewsItem)) xs items :
  (forall a x, f a = Ok (Some x) -> P x) ->
  collect f xs = Ok items -> Forall P items.
Proof.
  intros Hf. revert items. induction xs as [|a r IH]; intros items; simpl.
  - intros [= <-]. constructor.
  - destruct (f a) as [[x|]|e] eqn:Ha; [| |done];
      (destruct (collect f r) as [items'|e]; [|done]); intros [= <-]; eauto.
Qed.

Lemma collect_throws {A} (f : A -> res (option NewsItem)) xs a e :
  a ∈ xs -> f a = Throw e -> exists e', collect f xs = Throw e'.
Proof.
  intros Ha Hf. induction xs as [|b r IH]; [by apply elem_of_nil in Ha|].
  apply elem_of_cons in Ha as [<-|Ha]; simpl.
  - rewrite Hf. eauto.
  - destruct (f b) as [o|e1]; [|eauto].
    destruct (IH Ha) as [e' ->]. eauto.
Qed.

Lemma feedItems_well_formed w url : Forall well_formed (feedItems w url).
Proof.
  unfold feedItems. destruct (parseURL w url) as [feed|]; [|constructor].
  destruct (extractSource feed) as [source|]; [|constructor].
  destruct (collect _ _) as [items|] eqn:Hc; [|constructor].
  eapply collect_Forall; [|exact Hc]. intros entry x Hx. simpl in Hx.
  by apply normaliseItem_well_formed in Hx as [_ ?].
Qed.

Lemma freshNews_well_formed w urls : Forall well_formed (freshNews w urls).
Proof.
  apply Forall_forall. intros x (url & _ & Hx)%freshNews_from_feeds.
  by eapply (proj1 (Forall_forall _ _)); [apply feedItems_well_formed|].
Qed.

Lemma subredditItems_well_formed w n name items urls :
  subredditItems w n name = Some (items, urls) -> Forall well_formed items.
Proof.
  unfold subredditItems. destruct (follow w n _) as [[r urls']|]; [|done].
  intros [= <- <-]. destruct r as [[children|]|]; try constructor.
  destruct (collect normalisePost children) as [items|] eqn:Hc; [|constructor].
  eapply collect_Forall; [|exact Hc]. apply normalisePost_well_formed.
Qed.

Lemma redditFanout_well_formed w n names iss urls :
  redditFanout w n names = Some (iss, urls) -> Forall well_formed (concat iss).
Proof.
  revert iss urls. induction names as [|name rest IH]; intros iss urls.
  - intros [= <- <-]. constructor.
  - cbn [redditFanout].
    destruct (subredditItems w n name) as [[items urls0]|] eqn:Hs; [|done].
    destruct (redditFanout w n rest) as [[iss' urls']|]; [|done].
    intros [= <- <-]. cbn [concat]. apply Forall_app. split.
    + by eapply subredditItems_well_formed.
    + by eapply IH.
Qed.

Lemma getRedditNews_inv w n st r st' :
  getRedditNews w n st = Some (r, st') ->
  (exists c, reddit_cache st = Some c /\ r = Ok (data c) /\ st' = st) \/
  (exists iss urls,
      redditFanout w n SUBREDDITS = Some (iss, urls) /\
      r = Ok (concat iss) /\
      st' = mkState (rss_cache st)
              (Some (mkCacheEntry (concat iss)
                                  (Date_now w RedditCacheStore + CACHE_TTL_MS)))
              (requests st ++ urls)).
Proof.
  destruct (cache_valid (reddit_cache st) (Date_now w RedditCacheCheck)) eqn:Hc.
  - unfold cache_valid in Hc. destruct (reddit_cache st) as [c|] eqn:Hst; [|done].
    apply Z.ltb_lt in Hc. rewrite (getRedditNews_hit _ _ _ c) by done.
    intros [= <- <-]. left. eauto.
  - rewrite getRedditNews_miss by done.
    destruct (redditFanout w n SUBREDDITS) as [[iss urls]|] eqn:Hf; [|done].
    intros [= <- <-]. right. eauto.
Qed.

Lemma getNews_state w n st r st' :
  getNews w n st = Some (r, st') ->
  st' = st \/
  st' = mkState (Some (mkCacheEntry (freshNews w RSS_FEED_URLS)
                                    (Date_now w RssCacheStore + CACHE_TTL_MS)))
                (reddit_cache st) (requests st ++ RSS_FEED_URLS).
Proof.
  destruct (cache_valid (rss_cache st) (Date_now w RssCacheCheck)) eqn:Hc.
  - unfold cache_valid in Hc. destruct (rss_cache st) as [c|] eqn:Hst; [|done].
    apply Z.ltb_lt in Hc. rewrite (getNews_hit _ _ _ c) by done.
    intros [= <- <-]. by left.
  - rewrite getNews_miss by done. intros [= <- <-]. by right.
Qed.

Lemma getNews_keeps_well_formed w n st r st' :
  caches_well_formed st -> getNews w n st = Some (r, st') -> caches_well_formed st'.
Proof.
  intros [Hrss Hreddit] [->| ->]%getNews_state; [done|].
  split; cbn [rss_cache reddit_cache]; [|done].
  intros c [= <-]. apply freshNews_well_formed.
Qed.

Lemma getRedditNews_keeps_well_formed w n st r st' :
  caches_well_formed st -> getRedditNews w n st = Some (r, st') -> caches_well_formed st'.
Proof.
  intros [Hrss Hreddit] [(c & _ & _ & ->)|(iss & urls & Hf & _ & ->)]%getRedditNews_inv;
    [done|].
  split; cbn [rss_cache reddit_cache]; [done|].
  intros c [= <-]. by eapply redditFanout_well_formed.
Qed.

Lemma reachable_well_formed st : reachable st -> caches_well_formed st.
Proof.
  induction 1 as [|w n st r st' _ IH Hrun|w n st r st' _ IH Hrun|w n st r st' _ IH Hrun].
  - by split.
  - by eapply getNews_keeps_well_formed.
  - by eapply getRedditNews_keeps_well_formed.
  - apply GET_inv in Hrun as (rss & st1 & reddit & Hrss & Hreddit & _).
    eapply getRedditNews_keeps_well_formed; [|exact Hreddit].
    by eapply getNews_keeps_well_formed.
Qed.

(** X2.  In every state the process can reach, every item the news endpoint
    serves is well formed: its id is [makeId] of its link, its link and its
    title are not empty, and its summary has at most 500 characters. *)
Theorem GET_items_well_formed w n st out :
  reachable st ->
  GET w n st = Some out ->
  exists count items,
    out.1 = Ok (Json200 count items) /\ count = List.length items /\
    Forall well_formed items.
Proof.
  destruct out as [r st']. intros Hreach Hrun.
  pose proof (reachable_well_formed _ Hreach) as Hwf.
  apply GET_inv in Hrun as (rss & st1 & reddit & Hrss & Hreddit & ->).
  pose proof (getNews_keeps_well_formed _ _ _ _ _ Hwf Hrss) as Hwf1.
  eexists _, _. split; [done|]. split; [done|].
  assert (Forall well_formed rss) as Hr1.
  { apply getNews_inv in Hrss as [(c & Hc & [= ->] & ->)|[[= ->] _]].
    - by apply (proj1 Hwf).
    - apply freshNews_well_formed. }
  assert (Forall well_formed reddit) as Hr2.
  { apply getRedditNews_inv in Hreddit
      as [(c & Hc & [= ->] & ->)|(iss & urls & Hf & [= ->] & _)].
    - by apply (proj2 Hwf1).
    - by eapply redditFanout_well_formed. }
  apply Forall_forall. intros x Hx. unfold mergeSources in Hx.
  apply Array_sort_elem_of, dedupByLink_elem_of, elem_of_app in Hx as [Hx|Hx].
  - by eapply (proj1 (Forall_forall _ _)); [exact Hr1|].
  - by eapply (proj1 (Forall_forall _ _)); [exact Hr2|].
Qed.

Lemma GET_items_well_formed_witness :
  exists count items,
    sample_out.1 = Ok (Json200 count items) /\ count = List.length items /\
    Forall well_formed items.
Proof.
  apply (GET_items_well_formed sample_world 2%nat initial_state sample_out).
  - exact reachable_initial.
  - vm_compute. reflexivity.
Defined.

Lemma collect_source w url src entries items :
  collect (fun entry => normaliseItem (Date_now w (RssItemFallback url)) entry src)
          entries = Ok items ->
  Forall (fun x => source x = src) items.
Proof.
  apply collect_Forall. intros entry x Hx.
  by destruct (normaliseItem_inv _ _ _ _ Hx) as (_ & _ & _ & ? & _).
Qed.

(** X3.  The source label of a feed is its trimmed title, or, when the title
    is absent or blank, the host name of its link; every item of the feed
    carries that label.  When the title is blank and the link is no URL,
    [extractSource] throws inside [fetchFeed]'s [try], so the feed
    contributes nothing although it was fetched and parsed. *)
Theorem feed_source_label w url feed :
  parseURL w url = Ok feed ->
  (forall x, x ∈ feedItems w url ->
             source x = match trimmed_or (feed_title feed) [] with
                        | [] => default [] (feed_hostname feed)
                        | t => t
                        end) /\
  (trimmed_or (feed_title feed) [] = [] -> feed_hostname feed = None ->
   feedItems w url = []).
Proof.
  intros Hfeed. unfold feedItems, extractSource. rewrite Hfeed. split.
  - intros x.
    destruct (trimmed_or (feed_title feed) []) as [|c t];
      [destruct (feed_hostname feed) as [h|]; [|by intros ?%elem_of_nil]|];
      (destruct (collect _ _) as [items|] eqn:Hc; [|by intros ?%elem_of_nil]);
      apply collect_source in Hc; intros Hx;
      by apply (proj1 (Forall_forall _ _) Hc).
  - by intros -> ->.
Qed.

Lemma feed_source_label_witness :
  Forall (fun x => source x = JS.lit "BBC")
         (feedItems sample_world (JS.lit "https://feeds.bbci.co.uk/news/rss.xml")).
Proof.
  apply Forall_forall.
  exact (proj1 (feed_source_label sample_world
                  (JS.lit "https://feeds.bbci.co.uk/news/rss.xml")
                  (sample_feed (JS.lit "BBC")
                     [sample_entry story_a 30; sample_entry story_c 20])
                  eq_refl)).
Defined.

Lemma normalisePost_throws post e :
  normalisePost post = Throw e ->
  e = RangeError /\
  ~ (- 8640000000000000 <= post_created_utc post * 1000 <= 8640000000000000).
Proof.
  unfold normalisePost. destruct (_ || _); [done|].
  destruct (if post_is_self post then _ else _) as [[|c l]|]; try done.
  unfold Date.of_number.
  destruct ((- Date.max_time <=? post_created_utc post * 1000)
            && (post_created_utc post * 1000 <=? Date.max_time)) eqn:Hr;
    simpl; [done|].
  intros [= ?]. subst. split; [done|].
  apply andb_false_iff in Hr. rewrite !Z.leb_gt in Hr.
  unfold Date.max_time in Hr. lia.
Qed.

(** X4.  A date that cannot be printed voids the whole unit it comes in.
    [normalisePost] throws only a RangeError, and only for a post it would
    keep whose [created_utc * 1000] lies outside the range of [Date]; the
    throw leaves the loop of [fetchSubreddit], so the subreddit contributes
    nothing, its other posts included.  In the same way one feed entry with a
    link and a date text that is no date empties its feed. *)
Theorem bad_date_voids_the_source :
  (forall post e,
      normalisePost post = Throw e ->
      e = RangeError /\
      ~ (- 8640000000000000 <= post_created_utc post * 1000 <= 8640000000000000)) /\
  (forall w n name children urls post e,
      follow w n (subreddit_url name) = Some (Ok (Some children), urls) ->
      post ∈ children ->
      normalisePost post = Throw e ->
      forall st, fetchSubreddit w name n st = Some (Ok [], log urls st)) /\
  (forall w url feed src entry,
      parseURL w url = Ok feed ->
      extractSource feed = Ok src ->
      entry ∈ feed_items feed ->
      trimmed_or (item_link entry) [] <> [] ->
      item_isoDate entry = Some None ->
      forall n st, fetchFeed w url n st = Some (Ok [], log [url] st)).
Proof.
  split; [apply normalisePost_throws|split].
  - intros w n name children urls post e Hf Hin Hthrow st.
    rewrite fetchSubreddit_run. unfold subredditItems. rewrite Hf.
    by destruct (collect_throws normalisePost children post e Hin Hthrow) as [e' ->].
  - intros w url feed src entry Hfeed Hsrc Hin Hlink Hdate n st.
    rewrite fetchFeed_run. unfold feedItems. rewrite Hfeed, Hsrc.
    destruct (collect_throws
                (fun entry => normaliseItem (Date_now w (RssItemFallback url)) entry src)
                (feed_items feed) entry RangeError Hin) as [e' ->]; [|done].
    unfold normaliseItem. rewrite Hdate.
    by destruct (trimmed_or (item_link entry) []).
Qed.

(** X5.  The sort of the route is stable: the items of the answer that share
    a timestamp stand in the order in which the merged, de-duplicated
    sequence had them, RSS items before Reddit items. *)
Theorem equal_dates_keep_order rssItems redditItems t :
  filter (fun y => publishedAt y = t) (mergeSources rssItems redditItems)
  = filter (fun y => publishedAt y = t) (dedupByLink (rssItems ++ redditItems)).
Proof.
  unfold mergeSources. generalize (dedupByLink (rssItems ++ redditItems)).
  intros l. induction l as [|x l IH]; [done|].
  cbn [Array_sort fold_right]. fold (Array_sort byDateDesc l).
  rewrite sort_insert_stable, !filter_cons.
  by destruct (decide (publishedAt x = t)); rewrite IH.
Qed.

Lemma getNews_cached w n st r st' :
  getNews w n st = Some (r, st') ->
  exists c, rss_cache st' = Some c /\ r = Ok (data c) /\
            reddit_cache st' = reddit_cache st /\
            requests st `prefix_of` requests st'.
Proof.
  destruct (cache_valid (rss_cache st) (Date_now w RssCacheCheck)) eqn:Hc.
  - unfold cache_valid in Hc. destruct (rss_cache st) as [c|] eqn:Hst; [|done].
    apply Z.ltb_lt in Hc. rewrite (getNews_hit _ _ _ c) by done.
    intros [= <- <-]. eauto 10.
  - rewrite getNews_miss by done. intros [= <- <-]. eexists. cbn.
    split; [done|]. split; [done|]. split; [done|]. by apply prefix_app_r.
Qed.

Lemma getRedditNews_cached w n st r st' :
  getRedditNews w n st = Some (r, st') ->
  exists c, reddit_cache st' = Some c /\ r = Ok (data c) /\
            rss_cache st' = rss_cache st /\
            requests st `prefix_of` requests st'.
Proof.
  intros [(c & Hc & -> & ->)|(iss & urls & _ & -> & ->)]%getRedditNews_inv.
  - eauto 10.
  - eexists. cbn. split; [done|]. split; [done|]. split; [done|].
    by apply prefix_app_r.
Qed.

(** X6.  A second request to the news endpoint that arrives while both cache
    slots are still valid gets the same answer as the first, issues no
    network request and leaves the state as it was, whatever the upstream
    would answer by then. *)
Theorem GET_again_within_ttl w1 w2 n st r st1 :
  GET w1 n st = Some (r, st1) ->
  exists c1 c2,
    rss_cache st1 = Some c1 /\ reddit_cache st1 = Some c2 /\
    (Date_now w2 RssCacheCheck < expiresAt c1 ->
     Date_now w2 RedditCacheCheck < expiresAt c2 ->
     forall n', GET w2 n' st1 = Some (r, st1)).
Proof.
  intros (rss & st0 & reddit & Hrss & Hreddit & ->)%GET_inv.
  apply getNews_cached in Hrss as (c1 & Hc1 & [= ->] & _).
  apply getRedditNews_cached in Hreddit as (c2 & Hc2 & [= ->] & Hsame & _).
  exists c1, c2. rewrite Hsame. split; [done|]. split; [done|].
  intros H1 H2 n'.
  assert (rss_cache st1 = Some c1) as Hc1' by congruence.
  pose proof (getNews_hit w2 n' st1 c1 Hc1' H1) as Hhit1.
  pose proof (getRedditNews_hit w2 n' st1 c2 Hc2 H2) as Hhit2.
  by destruct (GET_run _ _ _ _ _ _ _ Hhit1 Hhit2) as (reddit' & [= <-] & ->).
Qed.

Lemma GET_again_within_ttl_witness :
  GET sample_world 2%nat sample_out.2 = Some sample_out.
Proof.
  destruct (GET_again_within_ttl sample_world sample_world 2%nat initial_state
              sample_out.1 sample_out.2 ltac:(vm_compute; reflexivity))
    as (c1 & c2 & H1 & H2 & Hagain).
  vm_compute in H1, H2. injection H1 as <-. injection H2 as <-.
  apply (Hagain eq_refl eq_refl 2%nat).
Defined.

(** X7.  The two caches are independent: [getNews] never touches the Reddit
    slot and [getRedditNews] never touches the RSS slot; each returns what
    its own slot holds when it is done, and the log of requests only
    grows. *)
Theorem caches_are_independent w n st r st' :
  (getNews w n st = Some (r, st') ->
   reddit_cache st' = reddit_cache st /\
   requests st `prefix_of` requests st' /\
   exists c, rss_cache st' = Some c /\ r = Ok (data c)) /\
  (getRedditNews w n st = Some (r, st') ->
   rss_cache st' = rss_cache st /\
   requests st `prefix_of` requests st' /\
   exists c, reddit_cache st' = Some c /\ r = Ok (data c)).
Proof.
  split.
  - intros (c & ? & ? & ? & ?)%getNews_cached. eauto 10.
  - intros (c & ? & ? & ? & ?)%getRedditNews_cached. eauto 10.
Qed.

Lemma caches_are_independent_witness :
  match getNews sample_world 0%nat initial_state with
  | Some (r, st') => reddit_cache st' = None
  | None => True
  end.
Proof.
  destruct (getNews sample_world 0%nat initial_state) as [[r st']|] eqn:Hrun; [|exact I].
  exact (proj1 (proj1 (caches_are_independent sample_world 0%nat initial_state r st')
                  Hrun)).
Defined.

Lemma bad_date_voids_the_source_witness :
  normalisePost late_post = Throw RangeError /\
  ~ (- 8640000000000000 <= post_created_utc late_post * 1000 <= 8640000000000000).
Proof.
  assert (normalisePost late_post = Throw RangeError) as H by (vm_compute; reflexivity).
  split; [exact H|].
  exact (proj2 (proj1 bad_date_voids_the_source late_post RangeError H)).
Defined.

Lemma with_link_absent k l : k ∉ (link <$> l) -> with_link k l = [].
Proof.
  unfold with_link. induction l as [|y r IH]; [done|].
  rewrite fmap_cons, not_elem_of_cons. intros [Hne Hr].
  rewrite filter_cons, decide_False by done. by apply IH.
Qed.

Lemma with_link_NoDup l x :
  NoDup (link <$> l) -> x ∈ l -> with_link (link x) l = [x].
Proof.
  induction l as [|y r IH]; intros Hnd Hx; [by apply elem_of_nil in Hx|].
  rewrite fmap_cons in Hnd. apply NoDup_cons in Hnd as [Hy Hnd].
  unfold with_link. rewrite filter_cons. apply elem_of_cons in Hx as [->|Hx].
  - rewrite decide_True by done. f_equal. by apply with_link_absent.
  - rewrite decide_False; [by apply IH|].
    intros Heq. apply Hy. rewrite Heq. apply list_elem_of_fmap. eauto.
Qed.

Lemma same_link_same_item l a b :
  NoDup (link <$> l) -> a ∈ l -> b ∈ l -> link a = link b -> a = b.
Proof.
  intros Hnd Ha Hb Heq.
  assert (b ∈ with_link (link a) l) as Hin by (by apply list_elem_of_filter).
  rewrite (with_link_NoDup l a Hnd Ha) in Hin.
  by apply list_elem_of_singleton in Hin.
Qed.

Lemma NoDup_survives_merge rssItems redditItems x :
  NoDup (link <$> rssItems) -> x ∈ rssItems -> x ∈ mergeSources rssItems redditItems.
Proof.
  intros Hnd Hx.
  assert (x ∈ with_link (link x) (mergeSources rssItems redditItems)) as Hin.
  { rewrite mergeSources_with_link. unfold with_link. rewrite filter_app.
    fold (with_link (link x) rssItems). rewrite (with_link_NoDup _ _ Hnd Hx).
    simpl. rewrite take_0. by left. }
  by apply list_elem_of_filter in Hin as [_ ?].
Qed.

(** X8.  In every state the process can reach, the aggregate drops no RSS
    item: what [getNews] returns is already free of repeated links, so each
    of its items is in the answer of the endpoint; only Reddit items can
    lose against an earlier item with the same link. *)
Theorem rss_items_all_survive w n st out :
  reachable st ->
  GET w n st = Some out ->
  exists rssItems st1 count items,
    getNews w n st = Some (Ok rssItems, st1) /\
    out.1 = Ok (Json200 count items) /\
    forall x, x ∈ rssItems -> x ∈ items.
Proof.
  destruct out as [r st']. intros Hreach Hrun.
  apply GET_inv in Hrun as (rss & st1 & reddit & Hrss & Hreddit & ->).
  exists rss, st1. eexists _, _. split; [done|]. split; [done|].
  intros x Hx. apply NoDup_survives_merge; [|done].
  apply getNews_inv in Hrss as [(c & Hc & [= ->] & ->)|[[= ->] _]].
  - by apply (reachable_rss_cache _ Hreach c Hc).
  - apply sort_dedup_NoDup.
Qed.

Lemma rss_items_all_survive_witness :
  exists rssItems st1 count items,
    getNews sample_world 2%nat initial_state = Some (Ok rssItems, st1) /\
    sample_out.1 = Ok (Json200 count items) /\
    forall x, x ∈ rssItems -> x ∈ items.
Proof.
  apply (rss_items_all_survive sample_world 2%nat initial_state sample_out).
  - exact reachable_initial.
  - vm_compute. reflexivity.
Defined.

(** X9.  The [count] the endpoint reports is the number of items it returns,
    which is the number of distinct links among the items of the two
    sources; it never exceeds the number of items the sources gave. *)
Theorem count_is_distinct_links w n st out :
  GET w n st = Some out ->
  exists rssItems st1 redditItems count items,
    getNews w n st = Some (Ok rssItems, st1) /\
    getRedditNews w n st1 = Some (Ok redditItems, out.2) /\
    out.1 = Ok (Json200 count items) /\
    count = List.length items /\
    count = List.length (remove_dups (link <$> rssItems ++ redditItems)) /\
    (count <= List.length rssItems + List.length redditItems)%nat.
Proof.
  destruct out as [r st']. intros (rss & st1 & reddit & Hrss & Hreddit & ->)%GET_inv.
  exists rss, st1, reddit. eexists _, _. split; [done|]. split; [done|].
  split; [done|]. split; [done|].
  assert (link <$> mergeSources rss reddit ≡ₚ remove_dups (link <$> rss ++ reddit)) as Hp.
  { apply NoDup_Permutation; [apply mergeSources_NoDup|apply NoDup_remove_dups|].
    intros k. rewrite elem_of_remove_dups, mergeSources_links, fmap_app.
    by rewrite elem_of_app. }
  split.
  - by rewrite <- Hp, length_fmap.
  - unfold mergeSources. rewrite Array_sort_length, dedupByLink_keep_first.
    rewrite <- length_app. generalize (rss ++ reddit) (∅ : gset (list Z)).
    intros l. induction l as [|y t IH]; intros seen; simpl; [lia|].
    destruct (decide (link y ∈ seen)); [specialize (IH seen)|
                                        specialize (IH ({[link y]} ∪ seen))];
      simpl; lia.
Qed.

Lemma count_is_distinct_links_witness :
  exists rssItems st1 redditItems count items,
    getNews sample_world 2%nat initial_state = Some (Ok rssItems, st1) /\
    getRedditNews sample_world 2%nat st1 = Some (Ok redditItems, sample_out.2) /\
    sample_out.1 = Ok (Json200 count items) /\
    count = List.length items /\
    count = List.length (remove_dups (link <$> rssItems ++ redditItems)) /\
    (count <= List.length rssItems + List.length redditItems)%nat.
Proof.
  apply (count_is_distinct_links sample_world 2%nat initial_state sample_out).
  vm_compute. reflexivity.
Defined.

Lemma follow_fulfilled w n url listing urls :
  follow w n url = Some (Ok listing, urls) ->
  head urls = Some url /\
  exists u location,
    last urls = Some u /\ https_get w u = Response 200 location (Ok listing).
Proof.
  revert url urls. induction n as [|n IH]; intros url urls; [done|].
  cbn [follow]. destruct (redirect_target w url) as [loc|] eqn:Hre.
  - destruct (follow w n loc) as [[r urls']|] eqn:Hf; [|done].
    intros [= -> <-]. split; [done|].
    destruct (IH _ _ Hf) as ([l' ->]%head_Some & u & location & Hlast & Hget).
    exists u, location. split; [|done]. by rewrite last_cons_cons.
  - intros [= Hfin <-]. split; [done|]. exists url.
    unfold final_answer in Hfin. destruct (https_get w url) as [|sc location body]; [done|].
    destruct (Z.eqb_spec sc 200) as [->|]; [|done]. subst. eauto.
Qed.

(** X10.  [fetchJSON] fulfils only on a 200: when it returns a listing, the
    last URL it requested (its own, or the end of the redirect chain)
    answered with status 200 and a body that parses to that listing.  A
    response that is no redirect and has another status rejects with that
    status; this includes a 3xx without a [Location] header. *)
Theorem fetchJSON_fulfils_on_200 w url :
  (forall n st listing st',
      fetchJSON w url n st = Some (Ok listing, st') ->
      exists urls u location,
        st' = log urls st /\ head urls = Some url /\ last urls = Some u /\
        https_get w u = Response 200 location (Ok listing)) /\
  (forall statusCode location body,
      https_get w url = Response statusCode location body ->
      redirect_target w url = None ->
      statusCode <> 200 ->
      forall n st,
        fetchJSON w url (S n) st = Some (Throw (HttpError statusCode), log [url] st)) /\
  (forall statusCode body,
      https_get w url = Response statusCode None body ->
      redirect_target w url = None).
Proof.
  split; [|split].
  - intros n st listing st'. rewrite fetchJSON_follow.
    destruct (follow w n url) as [[r urls]|] eqn:Hf; [|done].
    intros [= -> <-]. destruct (follow_fulfilled _ _ _ _ _ Hf) as (Hh & u & location & Hl & Hg).
    eauto 10.
  - intros sc location body Hget Hre Hsc n st. rewrite fetchJSON_follow.
    cbn [follow]. rewrite Hre. unfold final_answer. rewrite Hget.
    by rewrite (proj2 (Z.eqb_neq _ _) Hsc).
  - intros sc body Hget. unfold redirect_target. by rewrite Hget.
Qed.

Lemma fetchJSON_fulfils_on_200_witness :
  fetchJSON sample_world (subreddit_url (JS.lit "news")) 1%nat initial_state
  = Some (Throw (HttpError 404), log [subreddit_url (JS.lit "news")] initial_state).
Proof.
  apply (proj1 (proj2 (fetchJSON_fulfils_on_200 sample_world
                         (subreddit_url (JS.lit "news"))))
           404 None (Throw SyntaxError)).
  - vm_compute. reflexivity.
  - vm_compute. reflexivity.
  - discriminate.
Defined.



(** * The fallback generator *)

Lemma hash_step_closed h c :
  Practice.hash_step h c = (33 * h + c) mod 2 ^ 32.
Proof.
  unfold Practice.hash_step, Practice.to_uint32, Practice.shl, Practice.to_int32.
  rewrite Z.shiftl_mul_pow2 by lia.
  change (2 ^ 5) with 32. change (2 ^ 31) with 2147483648.
  change (2 ^ 32) with 4294967296.
  Z.div_mod_to_equations. lia.
Qed.

Lemma hash_fold s h0 :
  0 <= h0 < 2 ^ 32 ->
  fold_left Practice.hash_step s h0
  = fold_left (fun h c => (33 * h + c) mod 2 ^ 32) s h0 /\
  0 <= fold_left Practice.hash_step s h0 < 2 ^ 32.
Proof.
  revert h0. induction s as [|c r IH]; intros h0 Hh0; simpl; [done|].
  rewrite hash_step_closed. apply IH. by apply Z.mod_pos_bound.
Qed.

Lemma hash_range s : 0 <= Practice.hash s < 2 ^ 32.
Proof. apply hash_fold. done. Qed.

(** X12.  [hash] is the djb2 hash reduced modulo 2^32: the 32-bit shift and
    the final [>>> 0] make every step [h := (33 * h + c) mod 2^32], so the
    seed is always a number between 0 and 2^32 - 1. *)
Theorem hash_is_djb2_mod_2_32 s :
  Practice.hash s = fold_left (fun h c => (33 * h + c) mod 2 ^ 32) s 5381 /\
  0 <= Practice.hash s < 2 ^ 32.
Proof. apply hash_fold. done. Qed.

Lemma pick_Some {T} (arr : list T) seed index :
  arr <> [] -> 0 <= seed + index ->
  exists x,
    Practice.pick arr seed index = Some x /\ x ∈ arr /\
    arr !! Z.to_nat ((seed + index) mod Z.of_nat (List.length arr)) = Some x.
Proof.
  intros Hne Hpos. unfold Practice.pick. destruct arr as [|a r] eqn:Harr; [done|].
  rewrite <- Harr in *. assert (0 < Z.of_nat (List.length arr)) as Hlen
    by (subst arr; simpl; lia).
  rewrite Z.rem_mod_nonneg by lia.
  pose proof (Z.mod_pos_bound (seed + index) _ Hlen) as Hb.
  rewrite (proj2 (Z.ltb_ge _ _)) by lia.
  destruct (arr !! Z.to_nat ((seed + index) mod Z.of_nat (List.length arr))) as [x|] eqn:Hx.
  - exists x. split; [done|]. split; [|done]. by eapply list_elem_of_lookup_2.
  - apply lookup_ge_None in Hx. lia.
Qed.

(** X13.  On an array that is not empty and a seed and index that are not
    negative, [pick] always returns an element of the array, the one at
    position [(seed + index) mod length]; on the empty array it returns
    [undefined]. *)
Theorem pick_returns_an_element {T} (arr : list T) seed index :
  arr <> [] -> 0 <= seed + index ->
  (exists x,
      Practice.pick arr seed index = Some x /\ x ∈ arr /\
      arr !! Z.to_nat ((seed + index) mod Z.of_nat (List.length arr)) = Some x) /\
  Practice.pick (@nil T) seed index = None.
Proof. intros Hne Hpos. split; [by apply pick_Some|done]. Qed.

Lemma pick_returns_an_element_witness :
  exists x, Practice.pick [10; 20; 30] 4294967295 20 = Some x /\ x ∈ [10; 20; 30].
Proof.
  destruct (pick_returns_an_element [10; 20; 30] 4294967295 20) as [(x & H1 & H2 & _) _].
  - discriminate.
  - lia.
  - exists x. exact (conj H1 H2).
Defined.

Lemma unique_loop (ws : list JS.string) (seen : gset (list Z)) (unique : list JS.string) :
  NoDup unique -> (forall w, w ∈ unique -> w ∈ seen) ->
  NoDup (fold_left Practice.unique_step ws (seen, unique)).2 /\
  forall w, w ∈ (fold_left Practice.unique_step ws (seen, unique)).2 ->
            w ∈ unique \/ w ∈ ws.
Proof.
  revert seen unique. induction ws as [|x r IH]; intros seen unique Hnd Hsub; simpl.
  - split; [done|]. by left.
  - unfold Practice.unique_step at 2 4. simpl.
    destruct (decide (x ∈ seen)) as [Hin|Hout].
    + destruct (IH seen unique Hnd Hsub) as [H1 H2]. split; [done|].
      intros w [?|?]%H2; [by left|right; by right].
    + destruct (IH ({[x]} ∪ seen) (unique ++ [x])) as [H1 H2].
      * apply NoDup_app. split; [done|]. split; [|apply NoDup_singleton].
        intros w Hw ->%list_elem_of_singleton. by apply Hout, Hsub.
      * intros w [Hw| ->%list_elem_of_singleton]%elem_of_app; set_solver.
      * split; [done|].
        intros w [[?| ->%list_elem_of_singleton]%elem_of_app|?]%H2;
          [by left|right; by left|right; by right].
Qed.

Lemma split_fields_chars (Q : Z -> Prop) cur in_gap s :
  Forall Q cur ->
  (forall c, c ∈ s -> JS.is_space c = false -> Q c) ->
  forall w, w ∈ Practice.split_fields cur in_gap s -> Forall Q w.
Proof.
  revert cur in_gap. induction s as [|c r IH]; intros cur in_gap Hcur Hs w; simpl.
  - intros ->%list_elem_of_singleton. by apply Forall_rev.
  - assert (forall c', c' ∈ r -> JS.is_space c' = false -> Q c') as Hr
      by (intros c' Hc'; apply Hs; by right).
    destruct (JS.is_space c) eqn:Hc.
    + destruct in_gap; [by apply IH|].
      intros [->|Hw]%elem_of_cons; [by apply Forall_rev|].
      by eapply (IH [] true).
    + apply IH; [|done]. constructor; [|done]. apply Hs; [by left|done].
Qed.

(** X14.  [extractKeywords] returns at most [max] keywords, no keyword
    twice; every keyword is longer than four characters, consists of the
    characters [a-z0-9] only and is not one of the stop words. *)
Theorem extractKeywords_gives_clean_keywords text max :
  (List.length (Practice.extractKeywords text max) <= max)%nat /\
  NoDup (Practice.extractKeywords text max) /\
  forall w, w ∈ Practice.extractKeywords text max ->
    (4 < JS.length w)%nat /\
    (w ∉ Practice.stopWords) /\
    Forall (fun c => 0x61 <= c <= 0x7A \/ 0x30 <= c <= 0x39) w.
Proof.
  unfold Practice.extractKeywords.
  set (fields := Practice.split_spaces
                   (Practice.keep_word_chars (Practice.toLowerCase text))).
  set (keep := fun w : JS.string =>
                 (4 <? JS.length w)%nat
                 && negb (bool_decide (w ∈ (list_to_set Practice.stopWords : gset (list Z))))).
  destruct (unique_loop (List.filter keep fields) ∅ []) as [Hnd Hsub];
    [constructor|by intros w ?%elem_of_nil|].
  split; [rewrite length_firstn; lia|].
  split; [eapply sublist_NoDup; [exact Hnd|apply sublist_take]|].
  intros w Hw%subseteq_take. apply Hsub in Hw as [Hw|Hw]; [by apply elem_of_nil in Hw|].
  apply list_elem_of_In, filter_In in Hw as [Hw%list_elem_of_In Hkeep].
  unfold keep in Hkeep. apply andb_true_iff in Hkeep as [Hlen Hstop].
  apply Nat.ltb_lt in Hlen. apply negb_true_iff, bool_decide_eq_false in Hstop.
  split; [done|]. split; [set_solver|].
  unfold fields, Practice.split_spaces in Hw.
  eapply split_fields_chars; [| |exact Hw]; [constructor|].
  intros c Hc Hsp. unfold Practice.keep_word_chars in Hc.
  apply list_elem_of_In, filter_In in Hc as [_ Hc].
  unfold Practice.is_word_or_space in Hc. rewrite Hsp, orb_false_r in Hc.
  apply orb_true_iff in Hc as [Hc|Hc]; apply andb_true_iff in Hc as [H1 H2];
    apply Z.leb_le in H1, H2; [by left|by right].
Qed.

Lemma for_each_total {A B} (f : A -> res B) (g : A -> B) xs :
  (forall x, x ∈ xs -> f x = Ok (g x)) -> for_each f xs = Ok (g <$> xs).
Proof.
  induction xs as [|x r IH]; intros Hf; simpl; [done|].
  rewrite Hf by (by left). rewrite IH; [done|]. intros y Hy. apply Hf. by right.
Qed.

Lemma pad_loop_length turns keywords :
  (8 <= List.length keywords + turns)%nat ->
  (8 <= List.length (Practice.pad_loop turns keywords))%nat /\
  ((List.length keywords <= 8)%nat ->
   List.length (Practice.pad_loop turns keywords) = 8%nat).
Proof.
  revert keywords. induction turns as [|t IH]; intros keywords Hlen; simpl; [lia|].
  destruct (Nat.ltb_spec (List.length keywords) 8) as [Hlt|Hge]; [|lia].
  destruct (IH (keywords ++ [default (JS.lit "this topic")
                               (keywords !! (List.length keywords
                                             mod Nat.max (List.length keywords) 1)%nat)]))
    as [H1 H2]; [rewrite length_app; simpl; lia|].
  split; [done|]. intros _. apply H2. rewrite length_app. simpl. lia.
Qed.

Lemma pad_loop_elem_of turns keywords kw :
  kw ∈ Practice.pad_loop turns keywords -> kw ∈ keywords \/ kw = JS.lit "this topic".
Proof.
  revert keywords. induction turns as [|t IH]; intros keywords; simpl; [by left|].
  destruct (List.length keywords <? 8)%nat; [|by left].
  intros [[Hk|Hk%list_elem_of_singleton]%elem_of_app| ->]%IH; [by left| |by right].
  destruct (keywords !! _) as [k|] eqn:Hlook; simpl in Hk; subst.
  - left. by eapply list_elem_of_lookup_2.
  - by right.
Qed.

Lemma keyword_at_elem_of keywords i :
  keywords <> [] -> Practice.keyword_at keywords i ∈ keywords.
Proof.
  intros Hne. unfold Practice.keyword_at. destruct keywords as [|k r] eqn:Hk; [done|].
  rewrite <- Hk in *.
  destruct (keywords !! (i mod List.length keywords)%nat) as [kw|] eqn:Hlook.
  - simpl. by eapply list_elem_of_lookup_2.
  - apply lookup_ge_None in Hlook.
    pose proof (Nat.mod_upper_bound i (List.length keywords)) as Hb.
    subst keywords. simpl in *. lia.
Qed.

Lemma generateFallbackContent_closed title summary :
  let padded :=
    Practice.pad_keywords (Practice.extractKeywords (title ++ JS.lit " " ++ summary) 8) in
  let seed := Practice.hash title in
  let bullet i :=
    default (fun kw : JS.string => kw)
            (Practice.pick Practice.BULLET_TEMPLATES seed (Z.of_nat i))
            (Practice.keyword_at padded i) in
  let step i :=
    default (fun kw : JS.string => kw)
            (Practice.pick Practice.STEP_TEMPLATES seed (Z.of_nat i + 10))
            (Practice.keyword_at padded (i + 2)) in
  let exercise i :=
    let tpl := default ((fun kw : JS.string => kw), (fun kw : JS.string => kw))
                 (Practice.pick Practice.EXERCISE_TEMPLATES seed (Z.of_nat i + 20)) in
    let kw := Practice.keyword_at padded (i + 4) in (tpl.1 kw, tpl.2 kw) in
  Practice.generateFallbackContent title summary
  = Ok (Practice.mkPracticeContent
          (bullet <$> seq 0 5)
          (step <$> seq 0 (Z.to_nat (5 + seed mod 4)))
          (exercise <$> seq 0 3)).
Proof.
  intros padded seed bullet step exercise. unfold Practice.generateFallbackContent.
  fold padded. fold seed. pose proof (hash_range title) as Hseed. fold seed in Hseed.
  assert (forall {T} (arr : list T) (index : Z),
             arr <> [] -> 0 <= index ->
             exists x, Practice.pick arr seed index = Some x) as Hpick.
  { intros T arr index Harr Hi.
    destruct (pick_Some arr seed index Harr) as (x & ? & _); [lia|eauto]. }
  rewrite (for_each_total _ bullet).
  2:{ intros i _. unfold bullet.
      by destruct (Hpick _ Practice.BULLET_TEMPLATES (Z.of_nat i)) as (f & ->);
        [|lia|]. }
  rewrite Z.rem_mod_nonneg by lia.
  rewrite (for_each_total _ step).
  2:{ intros i _. unfold step.
      by destruct (Hpick _ Practice.STEP_TEMPLATES (Z.of_nat i + 10)) as (f & ->);
        [|lia|]. }
  rewrite (for_each_total _ exercise).
  2:{ intros i _. unfold exercise.
      by destruct (Hpick _ Practice.EXERCISE_TEMPLATES (Z.of_nat i + 20)) as (f & ->);
        [|lia|]. }
  done.
Qed.

Lemma generateFallbackContent_lengths title summary :
  exists content,
    Practice.generateFallbackContent title summary = Ok content /\
    List.length (Practice.bullets content) = 5%nat /\
    (5 <= List.length (Practice.steps content) <= 8)%nat /\
    List.length (Practice.exercises content) = 3%nat.
Proof.
  eexists. split; [apply generateFallbackContent_closed|].
  cbn [Practice.bullets Practice.steps Practice.exercises].
  rewrite !length_fmap, !length_seq.
  pose proof (Z.mod_pos_bound (Practice.hash title) 4 eq_refl). lia.
Qed.

(** X15.  [generateFallbackContent] never throws and always returns the
    shape its type documents: exactly 5 bullets, [5 + seed mod 4] steps and
    so between 5 and 8, and exactly 3 exercises, for every title and summary,
    the empty ones included.  Each text is one of the templates filled with a
    keyword, and each keyword is one extracted from the title and summary or
    the stand-in "this topic". *)
Theorem generateFallbackContent_shape title summary :
  let keywords := Practice.extractKeywords (title ++ JS.lit " " ++ summary) 8 in
  let filled (kw : JS.string) := kw ∈ keywords \/ kw = JS.lit "this topic" in
  exists content,
    Practice.generateFallbackContent title summary = Ok content /\
    List.length (Practice.bullets content) = 5%nat /\
    List.length (Practice.steps content)
    = Z.to_nat (5 + Practice.hash title mod 4) /\
    (5 <= List.length (Practice.steps content) <= 8)%nat /\
    List.length (Practice.exercises content) = 3%nat /\
    (forall b, b ∈ Practice.bullets content ->
       exists f kw, f ∈ Practice.BULLET_TEMPLATES /\ filled kw /\ b = f kw) /\
    (forall t, t ∈ Practice.steps content ->
       exists f kw, f ∈ Practice.STEP_TEMPLATES /\ filled kw /\ t = f kw) /\
    (forall e, e ∈ Practice.exercises content ->
       exists tpl kw, tpl ∈ Practice.EXERCISE_TEMPLATES /\ filled kw /\
                      e = (tpl.1 kw, tpl.2 kw)).
Proof.
  intros keywords filled.
  set (padded := Practice.pad_keywords keywords).
  pose proof (hash_range title) as Hseed.
  assert (padded <> []) as Hne.
  { destruct (pad_loop_length 8 keywords) as [H8 _]; [lia|].
    fold (Practice.pad_keywords keywords) in H8. fold padded in H8.
    destruct padded; [simpl in H8; lia|done]. }
  assert (forall i, filled (Practice.keyword_at padded i)) as Hfilled.
  { intros i. apply (pad_loop_elem_of 8 keywords), keyword_at_elem_of, Hne. }
  assert (forall {T} (arr : list T) (index : Z),
             arr <> [] -> 0 <= index ->
             exists x, Practice.pick arr (Practice.hash title) index = Some x /\ x ∈ arr)
    as Hpick.
  { intros T arr index Harr Hi.
    destruct (pick_Some arr (Practice.hash title) index Harr) as (x & ? & ? & _); [lia|eauto]. }
  eexists. split; [apply generateFallbackContent_closed|].
  cbn [Practice.bullets Practice.steps Practice.exercises].
  rewrite !length_fmap, !length_seq.
  pose proof (Z.mod_pos_bound (Practice.hash title) 4 eq_refl) as Hm.
  split; [done|]. split; [done|]. split; [lia|]. split; [done|].
  split; [|split].
  - intros b (i & -> & _)%list_elem_of_fmap.
    destruct (Hpick _ Practice.BULLET_TEMPLATES (Z.of_nat i)) as (f & Hf & Hin);
      [done|lia|]. fold keywords padded. rewrite Hf. simpl. eauto.
  - intros t (i & -> & _)%list_elem_of_fmap.
    destruct (Hpick _ Practice.STEP_TEMPLATES (Z.of_nat i + 10)) as (f & Hf & Hin);
      [done|lia|]. fold keywords padded. rewrite Hf. simpl. eauto.
  - intros e (i & -> & _)%list_elem_of_fmap.
    destruct (Hpick _ Practice.EXERCISE_TEMPLATES (Z.of_nat i + 20)) as (f & Hf & Hin);
      [done|lia|]. fold keywords padded. rewrite Hf. simpl. eauto.
Qed.

(** * Trimming *)

Lemma trim_start_head s :
  match JS.trim_start s with
  | c :: _ => JS.is_space c = false
  | [] => True
  end.
Proof.
  induction s as [|c r IH]; simpl; [done|].
  destruct (JS.is_space c) eqn:Hc; [done|]. exact Hc.
Qed.

Lemma trim_start_fix s :
  match s with c :: _ => JS.is_space c = false | [] => True end ->
  JS.trim_start s = s.
Proof. destruct s as [|c r]; simpl; [done|]. by intros ->. Qed.

Lemma trim_start_split s :
  exists sp, s = sp ++ JS.trim_start s /\ Forall (fun c => JS.is_space c = true) sp.
Proof.
  induction s as [|c r (sp & Hs & Hsp)]; simpl; [by exists []|].
  destruct (JS.is_space c) eqn:Hc.
  - exists (c :: sp). split; [simpl; by f_equal|by constructor].
  - by exists [].
Qed.

Lemma trim_start_spaces sp s :
  Forall (fun c => JS.is_space c = true) sp ->
  JS.trim_start (sp ++ s) = JS.trim_start s.
Proof. induction 1 as [|c r Hc _ IH]; simpl; [done|]. by rewrite Hc. Qed.

Lemma trim_end_spaces sp s :
  Forall (fun c => JS.is_space c = true) sp ->
  JS.trim_end (s ++ sp) = JS.trim_end s.
Proof.
  intros Hsp. unfold JS.trim_end. rewrite rev_app_distr.
  rewrite trim_start_spaces; [done|]. by apply Forall_rev.
Qed.

Lemma trim_end_fix s c :
  JS.is_space c = false -> JS.trim_end (s ++ [c]) = s ++ [c].
Proof.
  intros Hc. unfold JS.trim_end. rewrite rev_app_distr. simpl. rewrite Hc.
  simpl. by rewrite rev_involutive.
Qed.

Lemma trim_end_idem t : JS.trim_end (JS.trim_end t) = JS.trim_end t.
Proof.
  unfold JS.trim_end. rewrite rev_involutive. f_equal.
  apply trim_start_fix, trim_start_head.
Qed.

Lemma trim_end_head c r :
  JS.is_space c = false -> exists r', JS.trim_end (c :: r) = c :: r'.
Proof.
  intros Hc. unfold JS.trim_end.
  destruct (trim_start_split (rev (c :: r))) as (sp & Hs & Hsp).
  apply (f_equal (@rev Z)) in Hs. rewrite rev_involutive, rev_app_distr in Hs.
  destruct (rev (JS.trim_start (rev (c :: r)))) as [|c' r'].
  - simpl in Hs. assert (c ∈ rev sp) as Hin by (rewrite <- Hs; by left).
    pose proof (proj2 (in_rev sp c) (proj1 (list_elem_of_In _ _) Hin)) as Hin'.
    apply list_elem_of_In in Hin'.
    pose proof (proj1 (Forall_forall _ _) Hsp c Hin') as Hsp'. congruence.
  - simpl in Hs. injection Hs as -> _. eauto.
Qed.

Lemma trim_idem s : JS.trim (JS.trim s) = JS.trim s.
Proof.
  unfold JS.trim at 2 3. pose proof (trim_start_head s) as Hh.
  destruct (JS.trim_start s) as [|c r]; [done|].
  destruct (trim_end_head c r Hh) as [r' Hr']. unfold JS.trim.
  rewrite Hr', (trim_start_fix (c :: r')) by done.
  rewrite <- Hr'. apply trim_end_idem.
Qed.

Lemma trimmed_string_prop_trimmed key obj :
  JS.trim (trimmed_string_prop key obj) = trimmed_string_prop key obj.
Proof.
  unfold trimmed_string_prop. destruct (prop key obj) as [[| | |s| |]|]; try done.
  apply trim_idem.
Qed.

Lemma trimmed_string_prop_object key body :
  trimmed_string_prop key body <> [] -> exists fields, body = JObject fields.
Proof. unfold trimmed_string_prop, prop. destruct body; try done. eauto. Qed.

(** * The request validators *)

(** X16.  The help route accepts a body exactly when it is a JSON object
    whose [title] and [question] are strings that are not blank; [null], a
    failed parse, a primitive, an array, a missing or non-string or blank
    field are all refused.  What it hands on is trimmed: [title] and
    [question] are not empty and no field has white space at either end. *)
Theorem help_validateBody_accepts body :
  (Help.validateBody body = None <->
   trimmed_string_prop (JS.lit "title") body = [] \/
   trimmed_string_prop (JS.lit "question") body = []) /\
  (forall input,
      Help.validateBody body = Some input ->
      (exists fields, body = JObject fields) /\
      Help.title input = trimmed_string_prop (JS.lit "title") body /\
      Help.summary input = trimmed_string_prop (JS.lit "summary") body /\
      Help.question input = trimmed_string_prop (JS.lit "question") body /\
      Help.title input <> [] /\ Help.question input <> [] /\
      JS.trim (Help.title input) = Help.title input /\
      JS.trim (Help.summary input) = Help.summary input /\
      JS.trim (Help.question input) = Help.question input).
Proof.
  unfold Help.validateBody. split.
  - destruct (is_object body) eqn:Hobj; simpl.
    + destruct (trimmed_string_prop (JS.lit "title") body),
               (trimmed_string_prop (JS.lit "question") body); simpl;
        split; try done; try (by left); try (by right); by intros [?|?].
    + split; [|done]. intros _. left. unfold trimmed_string_prop, prop.
      by destruct body.
  - intros input. destruct (is_object body); simpl; [|done].
    destruct (trimmed_string_prop (JS.lit "title") body) as [|c t] eqn:Ht; [done|].
    destruct (trimmed_string_prop (JS.lit "question") body) as [|d q] eqn:Hq; [done|].
    simpl. intros [= <-]. cbn [Help.title Help.summary Help.question].
    split; [apply (trimmed_string_prop_object (JS.lit "title")); by rewrite Ht|].
    rewrite <- Ht, <- Hq, !trimmed_string_prop_trimmed. rewrite Ht, Hq.
    repeat split; done.
Qed.

Lemma help_validateBody_accepts_witness :
  Help.validateBody (JArray [JString (JS.lit "title")]) = None.
Proof.
  apply (proj1 (help_validateBody_accepts (JArray [JString (JS.lit "title")]))).
  by left.
Defined.

Lemma topics_of_clean items :
  Forall (fun t => t <> [] /\ JS.trim t = t) (PracticeRoute.topics_of items).
Proof.
  unfold PracticeRoute.topics_of. apply Forall_forall. intros t Ht.
  apply list_elem_of_In, filter_In in Ht as [Ht Htruthy].
  apply in_map_iff in Ht as (s & <- & _). split.
  - by destruct (JS.trim s).
  - apply trim_idem.
Qed.

(** X17.  The practice route accepts a body exactly when it is a JSON object
    whose [title] is a string that is not blank.  The topics it hands on are
    the string entries of [topics], trimmed, without the blank ones; entries
    that are not strings are dropped, and a [topics] that is not an array
    counts as no topics. *)
Theorem practice_validateBody_accepts body :
  (PracticeRoute.validateBody body = None <->
   trimmed_string_prop (JS.lit "title") body = []) /\
  (forall input,
      PracticeRoute.validateBody body = Some input ->
      (exists fields, body = JObject fields) /\
      PracticeRoute.title input = trimmed_string_prop (JS.lit "title") body /\
      PracticeRoute.title input <> [] /\
      JS.trim (PracticeRoute.title input) = PracticeRoute.title input /\
      JS.trim (PracticeRoute.summary input) = PracticeRoute.summary input /\
      Forall (fun t => t <> [] /\ JS.trim t = t) (PracticeRoute.topics input) /\
      ((forall items, prop (JS.lit "topics") body <> Some (JArray items)) ->
       PracticeRoute.topics input = [])).
Proof.
  unfold PracticeRoute.validateBody. split.
  - destruct (is_object body) eqn:Hobj; simpl.
    + by destruct (trimmed_string_prop (JS.lit "title") body).
    + split; [|done]. intros _. unfold trimmed_string_prop, prop. by destruct body.
  - intros input. destruct (is_object body); simpl; [|done].
    destruct (trimmed_string_prop (JS.lit "title") body) as [|c t] eqn:Ht; [done|].
    simpl. intros [= <-].
    cbn [PracticeRoute.title PracticeRoute.summary PracticeRoute.topics].
    split; [apply (trimmed_string_prop_object (JS.lit "title")); by rewrite Ht|].
    split; [done|]. split; [done|].
    split; [rewrite <- Ht; apply trimmed_string_prop_trimmed|].
    split; [apply trimmed_string_prop_trimmed|]. split.
    + destruct (prop (JS.lit "topics") body) as [[| | | |items|]|]; try constructor.
      apply topics_of_clean.
    + intros Hno. destruct (prop (JS.lit "topics") body) as [[| | | |items|]|]; try done.
      by destruct (Hno items).
Qed.

Lemma practice_validateBody_accepts_witness :
  PracticeRoute.validateBody
    (JObject [(JS.lit "title", JString (JS.lit "   ")); (JS.lit "topics", JArray [])])
  = None.
Proof.
  apply (proj1 (practice_validateBody_accepts _)). reflexivity.
Defined.

(** * The language model client *)

Lemma parseResponse_inv env raw content :
  Llm.parseResponse env raw = Some content ->
  ~ (Practice.bullets content = [] /\ Practice.steps content = [] /\
     Practice.exercises content = []) /\
  exists obj bs ss es,
    JSON_parse env (JS.trim (Llm.strip_closing_fence (Llm.strip_opening_fence raw)))
    = Ok obj /\
    prop (JS.lit "bullets") obj = Some (JArray bs) /\
    prop (JS.lit "steps") obj = Some (JArray ss) /\
    prop (JS.lit "exercises") obj = Some (JArray es) /\
    Practice.bullets content = take 5 (Llm.strings_of bs) /\
    Practice.steps content = take 8 (Llm.strings_of ss) /\
    Practice.exercises content = take 3 (Llm.exercises_of es).
Proof.
  unfold Llm.parseResponse.
  destruct (JSON_parse env _) as [obj|] eqn:Hparse; [|done].
  assert (match prop (JS.lit "bullets") obj, prop (JS.lit "steps") obj,
                prop (JS.lit "exercises") obj with
          | Some (JArray bs), Some (JArray ss), Some (JArray es) =>
              match take 5 (Llm.strings_of bs), take 8 (Llm.strings_of ss),
                    take 3 (Llm.exercises_of es) with
              | [], [], [] => None
              | _, _, _ =>
                  Some (Practice.mkPracticeContent
                          (take 5 (Llm.strings_of bs)) (take 8 (Llm.strings_of ss))
                          (take 3 (Llm.exercises_of es)))
              end
          | _, _, _ => None
          end = Some content ->
          ~ (Practice.bullets content = [] /\ Practice.steps content = [] /\
             Practice.exercises content = []) /\
          exists bs ss es,
            prop (JS.lit "bullets") obj = Some (JArray bs) /\
            prop (JS.lit "steps") obj = Some (JArray ss) /\
            prop (JS.lit "exercises") obj = Some (JArray es) /\
            Practice.bullets content = take 5 (Llm.strings_of bs) /\
            Practice.steps content = take 8 (Llm.strings_of ss) /\
            Practice.exercises content = take 3 (Llm.exercises_of es)) as Hshape.
  { destruct (prop (JS.lit "bullets") obj) as [[| | | |bs|]|]; try done.
    destruct (prop (JS.lit "steps") obj) as [[| | | |ss|]|]; try done.
    destruct (prop (JS.lit "exercises") obj) as [[| | | |es|]|]; try done.
    intros Hc.
    assert (content = Practice.mkPracticeContent
                        (take 5 (Llm.strings_of bs)) (take 8 (Llm.strings_of ss))
                        (take 3 (Llm.exercises_of es)) /\
            ~ (take 5 (Llm.strings_of bs) = [] /\ take 8 (Llm.strings_of ss) = [] /\
               take 3 (Llm.exercises_of es) = [])) as [-> Hne].
    { destruct (take 5 (Llm.strings_of bs)), (take 8 (Llm.strings_of ss)),
               (take 3 (Llm.exercises_of es)); try done;
        injection Hc as <-; (split; [done|]); by intros (? & ? & ?). }
    cbn [Practice.bullets Practice.steps Practice.exercises].
    split; [done|]. eauto 10. }
  destruct obj; try done; intros Hc;
    destruct (Hshape Hc) as (? & bs & ss & es & ?); eauto 15.
Qed.

Lemma parseResponse_lengths env raw content :
  Llm.parseResponse env raw = Some content ->
  (List.length (Practice.bullets content) <= 5)%nat /\
  (List.length (Practice.steps content) <= 8)%nat /\
  (List.length (Practice.exercises content) <= 3)%nat.
Proof.
  intros (_ & obj & bs & ss & es & _ & _ & _ & _ & -> & -> & ->)%parseResponse_inv.
  rewrite !length_take. lia.
Qed.

(** X18.  What [parseResponse] accepts is bounded, not exact: a content it
    returns has at most 5 bullets, at most 8 steps and at most 3 exercises,
    taken in order from the string entries of [bullets] and [steps] and from
    the entries of [exercises] that are objects with string [q] and [a], and
    it is not empty in all three.  It returns [null] when the text does not
    parse, parses to [null], or lacks one of the three arrays. *)
Theorem parseResponse_is_bounded env raw content :
  Llm.parseResponse env raw = Some content ->
  (List.length (Practice.bullets content) <= 5)%nat /\
  (List.length (Practice.steps content) <= 8)%nat /\
  (List.length (Practice.exercises content) <= 3)%nat /\
  ~ (Practice.bullets content = [] /\ Practice.steps content = [] /\
     Practice.exercises content = []) /\
  exists obj bs ss es,
    JSON_parse env (JS.trim (Llm.strip_closing_fence (Llm.strip_opening_fence raw)))
    = Ok obj /\
    prop (JS.lit "bullets") obj = Some (JArray bs) /\
    prop (JS.lit "steps") obj = Some (JArray ss) /\
    prop (JS.lit "exercises") obj = Some (JArray es) /\
    Practice.bullets content = take 5 (Llm.strings_of bs) /\
    Practice.steps content = take 8 (Llm.strings_of ss) /\
    Practice.exercises content = take 3 (Llm.exercises_of es).
Proof.
  intros Hc. destruct (parseResponse_lengths _ _ _ Hc) as (H5 & H8 & H3).
  destruct (parseResponse_inv _ _ _ Hc) as (Hne & Hfrom).
  split; [exact H5|]. split; [exact H8|]. split; [exact H3|].
  split; [exact Hne|exact Hfrom].
Qed.

Lemma starts_with_app prefix s : Llm.starts_with prefix (prefix ++ s) = true.
Proof. induction prefix as [|p r IH]; simpl; [done|]. by rewrite Z.eqb_refl. Qed.

Lemma skipn_app_exact {A} (l k : list A) n :
  List.length l = n -> skipn n (l ++ k) = k.
Proof. intros <-. by rewrite drop_app_length. Qed.

(** X19.  The fences are stripped without harm to what they enclose.  For a
    payload that neither begins nor ends with white space, the text
    [```json], white space, the payload, white space, [```], white space
    is cleaned to exactly the payload; and a text that neither begins with
    a fence nor ends with one (white space apart) is only trimmed. *)
Theorem cleaning_recovers_the_payload c middle d ws1 ws2 ws3 :
  let payload := c :: middle ++ [d] in
  JS.is_space c = false ->
  JS.is_space d = false ->
  Forall (fun u => JS.is_space u = true) ws1 ->
  Forall (fun u => JS.is_space u = true) ws2 ->
  Forall (fun u => JS.is_space u = true) ws3 ->
  JS.trim (Llm.strip_closing_fence
             (Llm.strip_opening_fence
                (Llm.fence ++ JS.lit "json" ++ ws1 ++ payload ++ ws2 ++ Llm.fence ++ ws3)))
  = payload /\
  (forall raw,
      Llm.starts_with Llm.fence raw = false ->
      Llm.starts_with (rev Llm.fence) (rev (JS.trim_end raw)) = false ->
      JS.trim (Llm.strip_closing_fence (Llm.strip_opening_fence raw)) = JS.trim raw).
Proof.
  intros payload Hc Hd H1 H2 H3. split.
  - assert (JS.trim_end payload = payload) as Hend.
    { unfold payload. rewrite app_comm_cons. by apply trim_end_fix. }
    unfold Llm.strip_opening_fence. rewrite starts_with_app.
    rewrite (skipn_app_exact Llm.fence) by done.
    change (Llm.starts_with_json (JS.lit "json" ++ ws1 ++ payload ++ ws2 ++ Llm.fence ++ ws3))
      with true. cbn iota.
    rewrite (skipn_app_exact (JS.lit "json")) by done.
    rewrite trim_start_spaces by done.
    rewrite (trim_start_fix (payload ++ _)) by done.
    unfold Llm.strip_closing_fence.
    replace (payload ++ ws2 ++ Llm.fence ++ ws3)
      with (((payload ++ ws2 ++ [0x60; 0x60]) ++ [0x60]) ++ ws3)
      by (by rewrite <- !app_assoc).
    rewrite trim_end_spaces by done. rewrite trim_end_fix by done.
    replace ((payload ++ ws2 ++ [0x60; 0x60]) ++ [0x60])
      with ((payload ++ ws2) ++ Llm.fence) by (by rewrite <- !app_assoc).
    rewrite rev_app_distr, starts_with_app.
    rewrite (skipn_app_exact (rev Llm.fence)) by done.
    rewrite rev_involutive, trim_end_spaces, Hend by done.
    unfold JS.trim. by rewrite (trim_start_fix payload).
  - intros raw Hopen Hclose.
    unfold Llm.strip_opening_fence. rewrite Hopen.
    unfold Llm.strip_closing_fence. by rewrite Hclose.
Qed.

Lemma cleaning_recovers_the_payload_witness :
  JS.trim (Llm.strip_closing_fence
             (Llm.strip_opening_fence
                (Llm.fence ++ JS.lit "json" ++ [0x0A] ++ JS.lit "{ }" ++ [0x0A]
                 ++ Llm.fence ++ [])))
  = JS.lit "{ }".
Proof.
  refine (proj1 (cleaning_recovers_the_payload 0x7B [0x20] 0x7D [0x0A] [0x0A] []
                   eq_refl eq_refl _ _ _)).
  - by repeat constructor.
  - by repeat constructor.
  - constructor.
Defined.

Lemma parseResponse_is_bounded_witness :
  Llm.parseResponse sample_env (JS.lit "{}") = Some sample_content /\
  (List.length (Practice.bullets sample_content) <= 5)%nat.
Proof.
  assert (Llm.parseResponse sample_env (JS.lit "{}") = Some sample_content) as H
    by (vm_compute; reflexivity).
  split; [exact H|].
  exact (proj1 (parseResponse_is_bounded sample_env (JS.lit "{}") sample_content H)).
Defined.

Lemma generateHelpAnswer_inv env title summary question :
  exists answer,
    Llm.generateHelpAnswer env title summary question = Ok answer /\
    (forall text, answer = Some text -> text <> [] /\ JS.trim text = text /\
                  exists content, complete_help env title summary question
                                  = Ok (Some content) /\ text = JS.trim content) /\
    (no_api_key env -> answer = None) /\
    ((forall content, complete_help env title summary question <> Ok (Some content)) ->
     answer = None).
Proof.
  unfold Llm.generateHelpAnswer, Llm.getClient, catch, no_api_key.
  destruct (OPENAI_API_KEY env) as [[|k0 k]|].
  - exists None. split; [done|]. split; [done|]. done.
  - destruct (complete_help env title summary question) as [[content|]|e] eqn:Hc.
    + simpl. destruct (JS.trim content) as [|c text] eqn:Ht.
      * exists None. split; [done|]. split; [done|]. split; [by intros [?|?]|done].
      * exists (Some (c :: text)). split; [done|]. split.
        -- intros ? [= <-]. split; [done|]. rewrite <- Ht. split; [apply trim_idem|eauto].
        -- split; [by intros [?|?]|]. intros Hno. by destruct (Hno content).
    + exists None. split; [done|]. split; [done|]. split; [by intros [?|?]|done].
    + exists None. split; [done|]. split; [done|]. split; [by intros [?|?]|done].
  - exists None. split; [done|]. split; [done|]. done.
Qed.

Lemma generateWithLLM_inv env title summary topics :
  exists content,
    Llm.generateWithLLM env title summary topics = Ok content /\
    (forall c, content = Some c ->
               exists raw, complete_practice env title summary topics = Ok (Some raw) /\
                           raw <> [] /\ Llm.parseResponse env raw = Some c) /\
    (no_api_key env -> content = None) /\
    ((forall raw, complete_practice env title summary topics <> Ok (Some raw)) ->
     content = None).
Proof.
  unfold Llm.generateWithLLM, Llm.getClient, catch, no_api_key.
  destruct (OPENAI_API_KEY env) as [[|k0 k]|].
  - exists None. split; [done|]. split; [done|]. done.
  - destruct (complete_practice env title summary topics) as [[[|c raw]|]|e] eqn:Hc.
    + exists None. split; [done|]. split; [done|]. split; [by intros [?|?]|done].
    + exists (Llm.parseResponse env (c :: raw)). split; [done|]. split.
      * intros c0 Hc0. by exists (c :: raw).
      * split; [by intros [?|?]|]. intros Hno. by destruct (Hno (c :: raw)).
    + exists None. split; [done|]. split; [done|]. split; [by intros [?|?]|done].
    + exists None. split; [done|]. split; [done|]. split; [by intros [?|?]|done].
  - exists None. split; [done|]. split; [done|]. done.
Qed.



(** * The help and practice routes *)

(** X21.  The help route never answers 500.  It answers 400 exactly when the
    body is refused by [validateBody] (a body that does not parse counts as
    [null]); otherwise it answers 200 with an answer that is never empty:
    the trimmed answer of the service, or the fixed fallback text when there
    is no API key or the client returned [null]. *)
Theorem help_POST_answers env request :
  let body := match request with Ok b => b | Throw _ => JNull end in
  exists response,
    Help.POST env request = Ok response /\
    (forall error, response <> Help.Json500 error) /\
    ((exists error, response = Help.Json400 error) <-> Help.validateBody body = None) /\
    (forall answer,
        response = Help.Json200 answer ->
        answer <> [] /\
        (no_api_key env -> answer = Help.fallback_answer) /\
        exists input,
          Help.validateBody body = Some input /\
          (answer = Help.fallback_answer \/
           Llm.generateHelpAnswer env (Help.title input) (Help.summary input)
                                  (Help.question input) = Ok (Some answer))).
Proof.
  intros body. unfold Help.POST. fold body.
  destruct (Help.validateBody body) as [input|] eqn:Hv.
  - destruct (generateHelpAnswer_inv env (Help.title input) (Help.summary input)
                (Help.question input)) as (answer & Hrun & Hsome & Hnokey & _).
    assert (exists o,
               match OPENAI_API_KEY env with
               | Some (_ :: _) =>
                   Llm.generateHelpAnswer env (Help.title input) (Help.summary input)
                                          (Help.question input)
               | _ => Ok None
               end = Ok o /\
               (no_api_key env -> o = None) /\
               (o = None \/ o = answer)) as (o & -> & Hno & Ho).
    { unfold no_api_key. destruct (OPENAI_API_KEY env) as [[|k0 k]|].
      - exists None. split; [done|]. split; [done|]. by left.
      - exists answer. rewrite Hrun. split; [done|]. split; [by intros [?|?]|by right].
      - exists None. split; [done|]. split; [done|]. by left. }
    simpl. eexists. split; [done|]. split; [done|]. split.
    + split; [by intros [? ?]|done].
    + intros a [= <-]. split; [by destruct o as [[|? ?]|]|].
      split; [intros ->%Hno; done|]. exists input. split; [done|].
      destruct o as [[|c text]|]; [by left| |by left].
      right. destruct Ho as [|<-]; [done|exact Hrun].
  - simpl. eexists. split; [done|]. split; [done|]. split; [|done].
    split; [done|eauto].
Qed.

Lemma help_POST_answers_witness :
  Help.POST sample_env (Ok sample_body) = Ok (Help.Json200 (JS.lit "An answer.")).
Proof.
  destruct (help_POST_answers sample_env (Ok sample_body)) as (response & Hrun & _).
  rewrite Hrun. vm_compute in Hrun. symmetry. exact Hrun.
Defined.

(** X22.  The practice route never answers 500.  It answers 400 exactly when
    the body has no usable [title]; otherwise it answers 200 with a content
    and its origin.  A content marked [fallback] is
    [generateFallbackContent] of the validated title and summary, with
    exactly 5 bullets, 5 to 8 steps and 3 exercises; this is what is served
    whenever there is no API key.  A content marked [llm] is what the client
    returned, with at most 5 bullets, 8 steps and 3 exercises. *)
Theorem practice_POST_answers env request :
  let body := match request with Ok b => b | Throw _ => JNull end in
  exists response,
    PracticeRoute.POST env request = Ok response /\
    (forall error, response <> PracticeRoute.Json500 error) /\
    ((exists error, response = PracticeRoute.Json400 error)
     <-> PracticeRoute.validateBody body = None) /\
    (forall source content,
        response = PracticeRoute.Json200 source content ->
        exists input,
          PracticeRoute.validateBody body = Some input /\
          (no_api_key env -> source = PracticeRoute.fallback) /\
          match source with
          | PracticeRoute.fallback =>
              Practice.generateFallbackContent (PracticeRoute.title input)
                                               (PracticeRoute.summary input)
              = Ok content /\
              List.length (Practice.bullets content) = 5%nat /\
              (5 <= List.length (Practice.steps content) <= 8)%nat /\
              List.length (Practice.exercises content) = 3%nat
          | PracticeRoute.llm =>
              Llm.generateWithLLM env (PracticeRoute.title input)
                                  (PracticeRoute.summary input)
                                  (PracticeRoute.topics input)
              = Ok (Some content) /\
              (List.length (Practice.bullets content) <= 5)%nat /\
              (List.length (Practice.steps content) <= 8)%nat /\
              (List.length (Practice.exercises content) <= 3)%nat
          end).
Proof.
  intros body. unfold PracticeRoute.POST. fold body.
  destruct (PracticeRoute.validateBody body) as [input|] eqn:Hv.
  - destruct (generateWithLLM_inv env (PracticeRoute.title input)
                (PracticeRoute.summary input) (PracticeRoute.topics input))
      as (generated & Hrun & Hsome & Hnokey & _).
    destruct (generateFallbackContent_lengths (PracticeRoute.title input)
                (PracticeRoute.summary input)) as (fb & Hfb & Hb & Hs & He).
    assert (exists o,
               match OPENAI_API_KEY env with
               | Some (_ :: _) =>
                   Llm.generateWithLLM env (PracticeRoute.title input)
                     (PracticeRoute.summary input) (PracticeRoute.topics input)
               | _ => Ok None
               end = Ok o /\
               (no_api_key env -> o = None) /\
               (o = None \/ o = generated)) as (o & -> & Hno & Ho).
    { unfold no_api_key. destruct (OPENAI_API_KEY env) as [[|k0 k]|].
      - exists None. split; [done|]. split; [done|]. by left.
      - exists generated. rewrite Hrun. split; [done|]. split; [by intros [?|?]|by right].
      - exists None. split; [done|]. split; [done|]. by left. }
    destruct o as [content|].
    + simpl. eexists. split; [done|]. split; [done|]. split.
      * split; [by intros [? ?]|done].
      * intros source c [= <- <-]. exists input. split; [done|].
        split; [by intros ?%Hno|].
        destruct Ho as [|<-]; [done|]. split; [exact Hrun|].
        destruct (Hsome content eq_refl) as (raw & _ & _ & Hparse).
        by apply parseResponse_lengths in Hparse.
    + rewrite Hfb. simpl. eexists. split; [done|]. split; [done|]. split.
      * split; [by intros [? ?]|done].
      * intros source c [= <- <-]. exists input. done.
  - simpl. eexists. split; [done|]. split; [done|]. split; [|done].
    split; [done|eauto].
Qed.

Lemma practice_POST_answers_witness :
  PracticeRoute.POST sample_env (Ok sample_body)
  = Ok (PracticeRoute.Json200 PracticeRoute.llm sample_content).
Proof.
  destruct (practice_POST_answers sample_env (Ok sample_body)) as (response & Hrun & _).
  rewrite Hrun. vm_compute in Hrun. symmetry. exact Hrun.
Defined.

(** * The feed page *)

(** X23.  [timeAgo] in terms of the milliseconds elapsed: less than a
    minute, or a date in the future, reads "just now"; then whole minutes
    (1 to 59), whole hours (1 to 23) and whole days (1 to 6) elapsed, the
    nested roundings being the same as one division of the elapsed time;
    from seven days on the date itself is shown. *)
Theorem timeAgo_thresholds toLocaleDateString now t :
  let elapsed := now - t in
  let shown := FeedPage.timeAgo toLocaleDateString now (Some t) in
  (elapsed < 60000 -> shown = JS.lit "just now") /\
  (60000 <= elapsed < 3600000 ->
   shown = JS.of_number (elapsed / 60000) ++ JS.lit "m ago" /\
   1 <= elapsed / 60000 <= 59) /\
  (3600000 <= elapsed < 86400000 ->
   shown = JS.of_number (elapsed / 3600000) ++ JS.lit "h ago" /\
   1 <= elapsed / 3600000 <= 23) /\
  (86400000 <= elapsed < 604800000 ->
   shown = JS.of_number (elapsed / 86400000) ++ JS.lit "d ago" /\
   1 <= elapsed / 86400000 <= 6) /\
  (604800000 <= elapsed -> shown = toLocaleDateString (Some t)).
Proof.
  intros elapsed shown. unfold shown, FeedPage.timeAgo. fold elapsed.
  assert (elapsed / 1000 / 60 = elapsed / 60000) as Hm
    by (rewrite Z.div_div by lia; done).
  assert (elapsed / 1000 / 60 / 60 = elapsed / 3600000) as Hh
    by (rewrite !Z.div_div by lia; done).
  assert (elapsed / 1000 / 60 / 60 / 24 = elapsed / 86400000) as Hd
    by (rewrite !Z.div_div by lia; done).
  rewrite Hd, Hh, Hm.
  destruct (Z.ltb_spec (elapsed / 1000) 60);
    destruct (Z.ltb_spec (elapsed / 60000) 60);
    destruct (Z.ltb_spec (elapsed / 3600000) 24);
    destruct (Z.ltb_spec (elapsed / 86400000) 7);
    repeat split; try done; try (Z.div_mod_to_equations; lia).
Qed.

Lemma timeAgo_thresholds_witness :
  FeedPage.timeAgo (fun _ => []) 7200000 (Some 0) = JS.lit "2h ago".
Proof.
  destruct (proj1 (proj2 (proj2 (timeAgo_thresholds (fun _ => []) 7200000 0)))
              ltac:(lia)) as [H _].
  exact H.
Defined.

Lemma extractKeywords_gives_clean_keywords_witness :
  (List.length (Practice.extractKeywords (JS.lit "Rising oceans, rising OCEANS") 8) <= 8)%nat /\
  NoDup (Practice.extractKeywords (JS.lit "Rising oceans, rising OCEANS") 8).
Proof.
  destruct (extractKeywords_gives_clean_keywords
              (JS.lit "Rising oceans, rising OCEANS") 8) as (H1 & H2 & _).
  exact (conj H1 H2).
Defined.

Lemma generateFallbackContent_shape_witness :
  exists content,
    Practice.generateFallbackContent [] [] = Ok content /\
    List.length (Practice.bullets content) = 5%nat /\
    List.length (Practice.steps content) = 6%nat.
Proof.
  destruct (generateFallbackContent_shape [] []) as (content & H1 & H2 & H3 & _).
  exists content. split; [exact H1|]. split; [exact H2|]. exact H3.
Defined.
